(** * Agent runtime: a shallow embedding of [AgentRuntime] and its properties

    The development follows the TypeScript class [AgentRuntime]
    (core/runtime.ts).  Pure helpers become functions, the remote services
    (completion endpoint, embedding endpoint, memory store, language model)
    become explicit oracles, and mutation of shared objects is modelled with
    an explicit heap.  The later modules cover the agent entry point (its
    memory endpoints, wallet selection and client start-up) and the text
    handling of the Twitter and Discord clients. *)

From Stdlib Require Import ZArith Ascii String List Sorted Lia.
From stdpp Require Import gmap strings list fin_maps.

Local Open Scope Z_scope.

(** ** JavaScript primitives used by the runtime *)

Module JS.

(** Relative index resolution of [Array.prototype.slice] and
    [String.prototype.slice]: a negative index counts from the end, and
    the outcome is clamped to [0 .. len]. *)
Definition rel_index (len i : Z) : Z :=
  if i <? 0 then Z.max (len + i) 0 else Z.min i len.

(** [arr.slice(start, stop)] *)
Definition slice {A : Type} (l : list A) (start stop : Z) : list A :=
  let len := Z.of_nat (length l) in
  let k := rel_index len start in
  let f := rel_index len stop in
  take (Z.to_nat (f - k)) (drop (Z.to_nat k) l).

(** [arr.slice(start)] *)
Definition slice_from {A : Type} (l : list A) (start : Z) : list A :=
  slice l start (Z.of_nat (length l)).

(** [str.slice(start, stop)], a string being its sequence of code units;
    the code units are those below 256 (U+0000 to U+00FF). *)
Definition str_slice (s : string) (start stop : Z) : string :=
  string_of_list_ascii (slice (list_ascii_of_string s) start stop).

(** [str.length] *)
Definition str_length (s : string) : Z := Z.of_nat (String.length s).

(** One code unit of [str.toLowerCase()]: among the code units below 256
    the upper-case letters are A to Z (65 to 90) and the Latin-1 capitals
    192 to 222 but for the multiplication sign 215, each 32 below its
    lower-case letter; no other code unit below 256 changes. *)
Definition lower_ascii (c : ascii) : ascii :=
  let n := nat_of_ascii c in
  if (((65 <=? n) && (n <=? 90))
      || ((192 <=? n) && (n <=? 222) && negb (n =? 215)))%nat
  then ascii_of_nat (n + 32) else c.

(** [str.toLowerCase()] *)
Fixpoint toLowerCase (s : string) : string :=
  match s with
  | EmptyString => EmptyString
  | String c r => String (lower_ascii c) (toLowerCase r)
  end.

(** [str.replace("_", "")]: a string pattern replaces the first
    occurrence only. *)
Fixpoint replace_first_underscore (s : string) : string :=
  match s with
  | EmptyString => EmptyString
  | String c r =>
      if Ascii.eqb c "_"%char then r else String c (replace_first_underscore r)
  end.

(** [s.startsWith(p)] *)
Fixpoint starts_with (p s : string) : bool :=
  match p, s with
  | EmptyString, _ => true
  | String _ _, EmptyString => false
  | String a p', String b s' => Ascii.eqb a b && starts_with p' s'
  end.

(** [s.includes(p)] *)
Fixpoint includes (s p : string) : bool :=
  starts_with p s ||
  match s with
  | EmptyString => false
  | String _ r => includes r p
  end.

(** Truthiness of a string: the empty string is falsy. *)
Definition truthy_string (s : string) : bool :=
  negb (String.eqb s EmptyString).

(** [Math.ceil(n / 2)] on an integer [n]. *)
Definition ceil_half (n : Z) : Z := (n + 1) / 2.

End JS.

(** ** Tokenizer adapter *)

(** A token is an entry of the [Uint32Array] produced by tiktoken. *)
Definition token := N.

(** [tiktoken.encoding_for_model(model)]: [encode] is [encoding.encode];
    [decode] stands for [textDecoder.decode(encoding.decode(tokens))]. *)
Record Encoding := {
  encode : string -> list token;
  decode : list token -> string
}.

(** A byte-level encoding: one token per code unit. *)
Definition char_encoding : Encoding := {|
  encode s := map N_of_ascii (list_ascii_of_string s);
  decode ts := string_of_list_ascii (map ascii_of_N ts)
|}.

(** A pair encoding: two code units per token (the last token carries one
    when the length is odd). *)
Fixpoint pair_encode (cs : list ascii) : list token :=
  match cs with
  | a :: b :: r => (256 + 256 * N_of_ascii a + N_of_ascii b)%N :: pair_encode r
  | [a] => [N_of_ascii a]
  | [] => []
  end.

Definition pair_decode_token (t : token) : list ascii :=
  if (t <? 256)%N then [ascii_of_N t]
  else [ascii_of_N ((t - 256) / 256); ascii_of_N ((t - 256) mod 256)].

Definition pair_encoding : Encoding := {|
  encode s := pair_encode (list_ascii_of_string s);
  decode ts := string_of_list_ascii (concat (map pair_decode_token ts))
|}.

Section Tokens.

Variable model : Type.
Variable encoding_for_model : model -> Encoding.

(** [count(text, model)] *)
Definition count_tokens (m : model) (text : string) : Z :=
  Z.of_nat (length (encode (encoding_for_model m) text)).

(** [AgentRuntime.trimTokens] *)
Definition trimTokens (context : string) (maxTokens : Z) (m : model) : string :=
  let encoding := encoding_for_model m in
  let tokens := encode encoding context in
  if Z.of_nat (length tokens) >? maxTokens then
    let tokens := rev (JS.slice_from (rev tokens) maxTokens) in
    decode encoding tokens
  else context.

(** The tokens handed to [decode] by [trimTokens] on the truncating
    branch. *)
Definition trimTokens_retained (context : string) (maxTokens : Z) (m : model)
  : list token :=
  rev (JS.slice_from (rev (encode (encoding_for_model m) context)) maxTokens).

End Tokens.

Arguments count_tokens {model} encoding_for_model m text.
Arguments trimTokens {model} encoding_for_model context maxTokens m.
Arguments trimTokens_retained {model} encoding_for_model context maxTokens m.

(** The models used in the examples. *)
Inductive sample_model := ByteModel | PairModel.

Definition sample_encoding (m : sample_model) : Encoding :=
  match m with
  | ByteModel => char_encoding
  | PairModel => pair_encoding
  end.

(** [AgentRuntime.splitChunks].  The three pieces of an emitted chunk are
    kept apart; the emitted string is their concatenation. *)
Record chunk_parts := {
  startBleed : string;
  decodedChunk : string;
  endBleed : string
}.

Definition chunk_text (c : chunk_parts) : string :=
  (startBleed c ++ decodedChunk c ++ endBleed c)%string.

(** The loop [for (let i = 0; i < tokens.length; i += chunkSize)]; [fuel]
    bounds the number of iterations and [None] means it ran out. *)
Fixpoint splitChunks_loop (fuel : nat) (encoding : Encoding) (content : string)
    (tokens : list token) (chunkSize bleed : Z) (i : Z)
  : option (list chunk_parts) :=
  if i <? Z.of_nat (length tokens) then
    match fuel with
    | O => None
    | S fuel' =>
        let chunk := JS.slice tokens i (i + chunkSize) in
        let decoded := decode encoding chunk in
        let sb := if i >? 0 then JS.str_slice content (i - bleed) i
                  else EmptyString in
        let eb := if i + chunkSize <? Z.of_nat (length tokens)
                  then JS.str_slice content (i + chunkSize) (i + chunkSize + bleed)
                  else EmptyString in
        cons {| startBleed := sb; decodedChunk := decoded; endBleed := eb |}
          <$> splitChunks_loop fuel' encoding content tokens chunkSize bleed
                (i + chunkSize)
    end
  else Some [].

Definition splitChunks_parts (fuel : nat) (encoding : Encoding)
    (content : string) (chunkSize bleed : Z) : option (list chunk_parts) :=
  splitChunks_loop fuel encoding content (encode encoding content)
    chunkSize bleed 0.

Definition splitChunks (fuel : nat) (encoding : Encoding)
    (content : string) (chunkSize bleed : Z) : option (list string) :=
  map chunk_text <$> splitChunks_parts fuel encoding content chunkSize bleed.

(** The characters of [content] that literally precede, respectively follow,
    the span [offset, offset + len) of the original text, at most [bleed]
    of them. *)
Definition literal_bleed_before (content : string) (offset bleed : Z) : string :=
  JS.str_slice content (Z.max (offset - bleed) 0) offset.

Definition literal_bleed_after (content : string) (offset len bleed : Z) : string :=
  JS.str_slice content (offset + len) (offset + len + bleed).

(** The text obtained by putting the cores of the chunks one after the
    other. *)
Definition cores_text (parts : list chunk_parts) : string :=
  foldr (fun c acc => (decodedChunk c ++ acc)%string) EmptyString parts.

(** ** Completion client *)

Module Completion.

(** What one request to the completion endpoint yields:
    the fetch rejects, or a response arrives with its [ok] flag and, when
    [response.json()] resolves, [body.choices?.[0]?.message?.content]. *)
Inductive outcome :=
| Rejected
| Responded (ok : bool) (body : option (option string)).

Inductive event :=
| Request
| Sleep (ms : Z).

Inductive result :=
| Returned (content : string)
| Failed (message : string).

(** The body of the [try] block: [Some content] when it reaches
    [return content], [None] when it throws. *)
Definition attempt (o : outcome) : option string :=
  match o with
  | Responded true (Some (Some content)) =>
      if JS.truthy_string content then Some content else None
  | _ => None
  end.

Definition exhausted_message : string :=
  "Failed to complete message after 5 tries, likely a network or API key issue".

Section Loop.

(** The endpoint: the outcome of the [n]-th request (from 0). *)
Variable service : nat -> outcome.

(** [for (let triesLeft = 5; triesLeft > 0; triesLeft--)] *)
Fixpoint completion_loop (triesLeft : nat) (sent : nat) (retryLength : Z)
  : result * list event :=
  match triesLeft with
  | O => (Failed exhausted_message, [])
  | S triesLeft' =>
      match attempt (service sent) with
      | Some content => (Returned content, [Request])
      | None =>
          let retryLength := retryLength * 2 in
          let '(r, evs) := completion_loop triesLeft' (S sent) retryLength in
          (r, Request :: Sleep retryLength :: evs)
      end
  end.

(** [AgentRuntime.completion] *)
Definition completion : result * list event :=
  completion_loop 5 0 1000.

End Loop.

(** The delays slept after [n] failed attempts, the delay variable holding
    [retryLength] before the first. *)
Fixpoint backoff (n : nat) (retryLength : Z) : list Z :=
  match n with
  | O => []
  | S n' => retryLength * 2 :: backoff n' (retryLength * 2)
  end.

(** The number of requests sent. *)
Fixpoint requests (evs : list event) : nat :=
  match evs with
  | [] => O
  | Request :: evs' => S (requests evs')
  | Sleep _ :: evs' => requests evs'
  end.

(** The delays slept, in order. *)
Fixpoint sleeps (evs : list event) : list Z :=
  match evs with
  | [] => []
  | Request :: evs' => sleeps evs'
  | Sleep ms :: evs' => ms :: sleeps evs'
  end.

End Completion.

(** ** Memories *)

(** An embedding.  The runtime stores and forwards embeddings without
    computing on their components. *)
Definition vector := list Z.

(** Address of a shared attachment object. *)
Definition loc := positive.

(** [Media]: an attachment of a message. *)
Record Media := {
  media_id : string;
  media_title : string;
  media_url : string;
  media_source : string;
  media_description : string;
  media_text : string
}.

(** [Memory]; [attachments] holds the addresses of the attachment objects
    of [content.attachments]. *)
Record Memory := {
  id : string;
  text : string;
  attachments : option (list loc);
  embedding : option vector;
  createdAt : option Z
}.

(** ** Embedding with cache *)

Module Embedding.

(** What the embeddings endpoint yields: the fetch rejects, or a response
    arrives with its [ok] flag and [data?.data?.[0].embedding]. *)
Inductive remote_outcome :=
| RemoteRejected
| RemoteResponded (ok : bool) (data : option vector).

Inductive event :=
| LlamaCall (input : string)
| CacheLookup (input : string)
| RemoteCall (input : string).

Inductive result :=
| Returned (v : option vector)
| Threw.

Record Env := {
  hasOpenAIKey : bool;                      (* getSetting("OPENAI_API_KEY") *)
  llama : string -> result;                 (* llamaService.getEmbeddingResponse *)
  remote : string -> remote_outcome         (* POST serverUrl/embeddings *)
}.

(** Modelled from the spec: [MemoryManager.getCachedEmbeddings] of
    core/memory.ts, which is not among the sources.  The spec has the
    cache "look up a prior record whose stored text exactly matches",
    the records being those of the messages namespace. *)
Definition getCachedEmbeddings (messages : list Memory) (input : string)
  : list Memory :=
  List.filter (fun m => String.eqb (text m) input) messages.

(** [AgentRuntime.retrieveCachedEmbedding] *)
Definition retrieveCachedEmbedding (messages : list Memory) (input : string)
  : option vector :=
  match getCachedEmbeddings messages input with
  | r :: _ => embedding r
  | [] => None
  end.

(** [AgentRuntime.embed].  The messages namespace is read and never
    written, so it is an argument and not part of the outcome. *)
Definition embed (env : Env) (messages : list Memory) (input : string)
  : result * list event :=
  if negb (hasOpenAIKey env) then (llama env input, [LlamaCall input])
  else
    match retrieveCachedEmbedding messages input with
    | Some cachedEmbedding => (Returned (Some cachedEmbedding), [CacheLookup input])
    | None =>
        match remote env input with
        | RemoteResponded true data =>
            (Returned data, [CacheLookup input; RemoteCall input])
        | _ => (Threw, [CacheLookup input; RemoteCall input])
        end
    end.

(** Two calls in a row with the same input. *)
Definition embed_twice (env : Env) (messages : list Memory) (input : string)
  : result * result * list event :=
  let '(r1, e1) := embed env messages input in
  let '(r2, e2) := embed env messages input in
  (r1, r2, e1 ++ e2).

(** The number of requests sent to the embeddings endpoint. *)
Fixpoint remote_calls (evs : list event) : nat :=
  match evs with
  | [] => O
  | RemoteCall _ :: evs' => S (remote_calls evs')
  | _ :: evs' => remote_calls evs'
  end.

(** An environment with the API key set and an endpoint that answers every
    request with the same vector. *)
Definition sample_env : Env :=
  {| hasOpenAIKey := true;
     llama := fun _ => Returned (Some [0]);
     remote := fun _ => RemoteResponded true (Some [1; 2; 3]) |}.

(** A stored message whose text is "hello". *)
Definition sample_record : Memory :=
  {| id := "m1"; text := "hello"; attachments := None;
     embedding := Some [7; 8; 9]; createdAt := Some 0 |}.

End Embedding.

(** ** Capability dispatcher: actions *)

Module Dispatcher.

Record Action := {
  name : string;
  similes : list string;
  handler : option nat          (* the handler, by its identity *)
}.

(** [responses[0].content]: only the [action] field is consulted. *)
Record Content := { action : option string }.

(** [s.toLowerCase().replace("_", "")] *)
Definition normalize (s : string) : string :=
  JS.replace_first_underscore (JS.toLowerCase s).

(** The predicate given to [find], for names and for similes. *)
Definition matches (normalizedAction candidate : string) : bool :=
  JS.includes (normalize candidate) normalizedAction
  || JS.includes normalizedAction (normalize candidate).

(** [this.actions.find(...)] on names. *)
Definition find_by_name (actions : list Action) (normalizedAction : string)
  : option Action :=
  List.find (fun a => matches normalizedAction (name a)) actions.

(** The loop over [this.actions] looking at [similes]; the found simile
    is tested for truthiness. *)
Fixpoint find_by_simile (actions : list Action) (normalizedAction : string)
  : option Action :=
  match actions with
  | [] => None
  | a :: rest =>
      match List.find (matches normalizedAction) (similes a) with
      | Some simileAction =>
          if JS.truthy_string simileAction then Some a
          else find_by_simile rest normalizedAction
      | None => find_by_simile rest normalizedAction
      end
  end.

Definition resolve (actions : list Action) (chosen : string) : option Action :=
  let normalizedAction := normalize chosen in
  match find_by_name actions normalizedAction with
  | Some a => Some a
  | None => find_by_simile actions normalizedAction
  end.

(** What a run of [processActions] did: it threw, or it completed having
    called at most one handler and possibly logged the warning. *)
Inductive outcome :=
| Threw
| Done (called : option Action) (warned : bool).

(** [AgentRuntime.processActions] *)
Definition processActions (actions : list Action) (responses : list Content)
  : outcome :=
  match responses with
  | [] => Threw
  | r :: _ =>
      match action r with
      | None => Done None false
      | Some chosen =>
          if negb (JS.truthy_string chosen) then Done None false
          else
            match resolve actions chosen with
            | None => Done None true
            | Some a =>
                match handler a with
                | None => Done None false
                | Some _ => Done (Some a) false
                end
            end
      end
  end.

Definition follow_room : Action :=
  {| name := "FOLLOW_ROOM"; similes := ["follow"]; handler := Some 1%nat |}.

Definition unfollow_room : Action :=
  {| name := "UNFOLLOW_ROOM"; similes := ["unfollow"]; handler := Some 2%nat |}.

Definition mute_room : Action :=
  {| name := "MUTE_ROOM"; similes := ["mute"]; handler := Some 4%nat |}.

(** An action reached through its second alias. *)
Definition join_voice : Action :=
  {| name := "JOIN_VOICE"; similes := ["enter"; "follow"]; handler := Some 5%nat |}.

End Dispatcher.

(** ** Capability dispatcher: evaluators *)

Module Evaluation.

Section Evaluate.

Variables Message State : Type.

Record Evaluator := {
  name : string;
  handler : option nat;
  validate : Message -> option State -> bool
}.

(** The completion call followed by [parseJsonArrayFromText]:
    the completion throws, or the parse gives an array or null. *)
Inductive llm_result :=
| CompletionFailed
| Parsed (names : option (list string)).

(** The language model, asked with the state and the offered
    evaluators (from which the context is composed). *)
Variable llm : option State -> list Evaluator -> llm_result.

Record run := {
  offered : option (list Evaluator);      (* None: the model is not asked *)
  executed : list Evaluator;              (* handlers called, in order *)
  returned : option (option (list string)) (* None: evaluate threw *)
}.

Definition has_handler (e : Evaluator) : bool :=
  match handler e with Some _ => true | None => false end.

(** [parsedResult?.includes(name)] *)
Definition named (parsedResult : option (list string)) (n : string) : bool :=
  match parsedResult with
  | Some l => existsb (String.eqb n) l
  | None => false
  end.

(** [AgentRuntime.evaluate] *)
Definition evaluate (evaluators : list Evaluator) (message : Message)
    (state : option State) : run :=
  let evaluatorsData :=
    List.filter (fun e => has_handler e && validate e message state) evaluators in
  if (length evaluatorsData =? 0)%nat then
    {| offered := None; executed := []; returned := Some (Some []) |}
  else
    match llm state evaluatorsData with
    | CompletionFailed =>
        {| offered := Some evaluatorsData; executed := []; returned := None |}
    | Parsed parsedResult =>
        {| offered := Some evaluatorsData;
           executed :=
             List.filter has_handler
               (List.filter (fun e => named parsedResult (name e)) evaluators);
           returned := Some parsedResult |}
    end.

End Evaluate.

Arguments name {Message State} e.
Arguments handler {Message State} e.
Arguments validate {Message State} e message state.
Arguments Build_Evaluator {Message State} name handler validate.
Arguments offered {Message State} r.
Arguments executed {Message State} r.
Arguments returned {Message State} r.
Arguments has_handler {Message State} e.
Arguments evaluate {Message State} llm evaluators message state.

(** Two registered evaluators: [validated] passes its [validate], and
    [rejected] does not. *)
Definition validated : Evaluator unit unit :=
  {| name := "FACT"; handler := Some 1%nat; validate := fun _ _ => true |}.

Definition rejected : Evaluator unit unit :=
  {| name := "GOAL"; handler := Some 2%nat; validate := fun _ _ => false |}.

(** A model that answers with the name of [rejected]. *)
Definition names_rejected (st : option unit) (offered : list (Evaluator unit unit))
  : llm_result :=
  Parsed (Some ["GOAL"%string]).

End Evaluation.

(** ** State composer *)

Module Composer.

(** *** Recent and relevant facts *)

(** The two reads of [factManager] used by [composeState]; [roomId] and
    [count] are the fields of the option object. *)
Record FactManager := {
  getMemories : string -> Z -> list Memory;
  searchMemoriesByEmbedding : option vector -> string -> Z -> list Memory
}.

(** A similarity search that was issued: query and count. *)
Definition search_call : Type := option vector * Z.

Inductive facts_result :=
| FactsThrew
| Facts (recentFactsData relevantFactsData : list Memory)
        (searches : list search_call).

(** [recentFactsData.find(recentFact => recentFact.id === fact.id)],
    as a truth value. *)
Definition is_recent (recentFactsData : list Memory) (fact : Memory) : bool :=
  existsb (fun recentFact => String.eqb (id recentFact) (id fact)) recentFactsData.

(** The facts part of [AgentRuntime.composeState]. *)
Definition composeState_facts (conversationLength : Z) (fm : FactManager)
    (roomId : string) : facts_result :=
  let recentFactsCount := JS.ceil_half conversationLength in
  let relevantFactsCount := JS.ceil_half conversationLength in
  let recentFactsData := getMemories fm roomId recentFactsCount in
  if Z.of_nat (length recentFactsData) >? recentFactsCount then
    match recentFactsData with
    | [] => FactsThrew
    | newest :: _ =>
        let found :=
          searchMemoriesByEmbedding fm (embedding newest) roomId relevantFactsCount in
        Facts recentFactsData
          (List.filter (fun fact => negb (is_recent recentFactsData fact)) found)
          [(embedding newest, relevantFactsCount)]
    end
  else Facts recentFactsData [] [].

(** A fact store holding three facts, newest first; the second newest is
    the least similar to the newest. *)
Definition fact (name : string) (v : vector) (t : Z) : Memory :=
  {| id := name; text := name; attachments := None;
     embedding := Some v; createdAt := Some t |}.

Definition sample_facts : FactManager :=
  {| getMemories := fun _ count =>
       take (Z.to_nat count)
         [fact "f1" [1; 0] 30; fact "f2" [0; 1] 20; fact "f3" [1; 0] 10];
     searchMemoriesByEmbedding := fun _ _ count =>
       take (Z.to_nat count)
         [fact "f1" [1; 0] 30; fact "f3" [1; 0] 10; fact "f2" [0; 1] 20] |}.

(** A fact store that honours [count]: a page never has more records than
    were asked for. *)
Definition honours_count (fm : FactManager) : Prop :=
  forall roomId count, 0 <= count ->
    Z.of_nat (length (getMemories fm roomId count)) <= count.

(** *** Attachment visibility *)

Definition hidden_marker : string := "[Hidden]".

(** [attachment.text = "[Hidden]"] *)
Definition hide (a : Media) : Media :=
  {| media_id := media_id a; media_title := media_title a;
     media_url := media_url a; media_source := media_source a;
     media_description := media_description a;
     media_text := hidden_marker |}.

(** [msg.content.attachments && msg.content.attachments.length > 0] *)
Definition has_attachments (msg : Memory) : bool :=
  match attachments msg with
  | Some (_ :: _) => true
  | _ => false
  end.

(** [msg.content.attachments || []] *)
Definition attachments_or_empty (msg : Memory) : list loc :=
  default [] (attachments msg).

(** [msgTime >= oneHourBeforeLastMessage] with [msgTime = msg.createdAt ??
    Date.now()]; the bound is [None] when it is NaN, and every comparison
    with NaN is false. *)
Definition isWithinTime (now : Z) (oneHourBeforeLastMessage : option Z)
    (msg : Memory) : bool :=
  match oneHourBeforeLastMessage with
  | Some bound => default now (createdAt msg) >=? bound
  | None => false
  end.

(** One step of the [map] callback: the effect on the attachment objects. *)
Definition redact_message (now : Z) (bound : option Z)
    (h : gmap loc Media) (msg : Memory) : gmap loc Media :=
  if isWithinTime now bound msg then h
  else foldl (fun h a => alter hide a h) h (attachments_or_empty msg).

(** Whether the callback of [map] hides the object at [a] when it visits
    [msg]. *)
Definition hides (now : Z) (bound : option Z) (a : loc) (msg : Memory) : bool :=
  negb (isWithinTime now bound msg) && bool_decide (a ∈ attachments_or_empty msg).

(** [msg.createdAt ?? Date.now()] *)
Definition msgTime (now : Z) (msg : Memory) : Z := default now (createdAt msg).


Record attachments_result := {
  heap_after : gmap loc Media;             (* the attachment objects *)
  recentMessagesData_after : list Memory;  (* the fetched array, afterwards *)
  allAttachments : list loc
}.

(** The attachment part of [AgentRuntime.composeState]. *)
Definition composeState_attachments (now : Z) (message : Memory)
    (recentMessagesData : list Memory) (h : gmap loc Media)
  : attachments_result :=
  match List.find has_attachments recentMessagesData with
  | None =>
      {| heap_after := h;
         recentMessagesData_after := recentMessagesData;
         allAttachments := attachments_or_empty message |}
  | Some lastMessageWithAttachment =>
      let oneHourBeforeLastMessage :=
        (fun lastMessageTime => lastMessageTime - 60 * 60 * 1000)
          <$> createdAt lastMessageWithAttachment in
      let reversed := rev recentMessagesData in
      {| heap_after := foldl (redact_message now oneHourBeforeLastMessage) h reversed;
         recentMessagesData_after := reversed;
         allAttachments := concat (map attachments_or_empty reversed) |}
  end.

(** *** Merging into the state *)

(** Values held by the fields of a state. *)
Inductive jsval :=
| JUndefined
| JNull
| JStr (s : string)
| JNum (n : Z)
| JMemories (l : list Memory)
| JOpaque (tag : nat).

(** The keys of the object literal [initialState], in order. *)
Definition initial_keys : list string :=
  [ "agentId"; "agentName"; "bio"; "lore"; "adjective";
    "recentMessageInteractions"; "recentPostInteractions";
    "recentInteractionsData"; "topic"; "topics";
    "characterPostExamples"; "characterMessageExamples";
    "messageDirections"; "postDirections"; "senderName"; "actors";
    "actorsData"; "roomId"; "goals"; "goalsData"; "recentMessages";
    "recentPosts"; "recentMessagesData"; "recentFacts"; "recentFactsData";
    "relevantFacts"; "relevantFactsData"; "attachments" ]%string.

(** The keys of the object literal [actionState], in order. *)
Definition action_keys : list string :=
  [ "actionNames"; "actions"; "actionExamples"; "evaluatorsData";
    "evaluators"; "evaluatorNames"; "evaluatorExamples"; "providers" ]%string.

(** An object literal with the given keys, each holding its computed
    value. *)
Definition object_literal (keys : list string) (computed : string -> jsval)
  : gmap string jsval :=
  list_to_map ((fun k => (k, computed k)) <$> keys).

(** [{ ...base, ...over }] *)
Definition spread (base over : gmap string jsval) : gmap string jsval :=
  over ∪ base.

(** [initialState = { <computed fields>, ...additionalKeys }] *)
Definition initialState (computed : string -> jsval)
    (additionalKeys : gmap string jsval) : gmap string jsval :=
  spread (object_literal initial_keys computed) additionalKeys.

(** [{ ...initialState, ...actionState }]; the fields of [actionState] are
    computed from [initialState] (validation and providers read it). *)
Definition composeState_merge (computed : string -> jsval)
    (catalog : gmap string jsval -> string -> jsval)
    (additionalKeys : gmap string jsval) : gmap string jsval :=
  let initial := initialState computed additionalKeys in
  spread initial (object_literal action_keys (catalog initial)).

(** *** The composition *)

(** What [composeState] reads besides its arguments. *)
Record Inputs := {
  conversationLength : Z;                  (* getConversationLength() *)
  now : Z;                                 (* Date.now() *)
  factManager : FactManager;
  recentMessagesPage : list Memory;        (* messageManager.getMemories *)
  formatted : string -> jsval;             (* the other computed fields *)
  catalog : gmap string jsval -> string -> jsval  (* the fields of actionState *)
}.

Record composed := {
  state : gmap string jsval;
  attachment_objects : gmap loc Media;
  fact_searches : list search_call
}.

(** The computed value of a field of [initialState]. *)
Definition computed_field (inp : Inputs) (recentMessagesData recentFactsData
    relevantFactsData : list Memory) (k : string) : jsval :=
  if String.eqb k "recentMessagesData" then JMemories recentMessagesData
  else if String.eqb k "recentFactsData" then JMemories recentFactsData
  else if String.eqb k "relevantFactsData" then JMemories relevantFactsData
  else formatted inp k.

(** [AgentRuntime.composeState]; [None] when it throws. *)
Definition composeState (inp : Inputs) (h : gmap loc Media) (message : Memory)
    (roomId : string) (additionalKeys : gmap string jsval) : option composed :=
  match composeState_facts (conversationLength inp) (factManager inp) roomId with
  | FactsThrew => None
  | Facts recentFactsData relevantFactsData searches =>
      let att := composeState_attachments (now inp) message
                   (recentMessagesPage inp) h in
      Some {| state :=
                composeState_merge
                  (computed_field inp (recentMessagesData_after att)
                     recentFactsData relevantFactsData)
                  (catalog inp) additionalKeys;
              attachment_objects := heap_after att;
              fact_searches := searches |}
  end.

(** *** A sample room *)

Definition media (name body : string) : Media :=
  {| media_id := name; media_title := name; media_url := "";
     media_source := "web"; media_description := ""; media_text := body |}.

Definition post (name : string) (atts : option (list loc)) (t : Z) : Memory :=
  {| id := name; text := name; attachments := atts;
     embedding := None; createdAt := Some t |}.

(** Three attachment objects. *)
Definition sample_heap : gmap loc Media :=
  {[ 1%positive := media "a1" "photo";
     2%positive := media "a2" "report";
     3%positive := media "a3" "ledger" ]}.

(** Three messages, newest first: the newest carries attachment 1, the
    oldest, more than an hour older, attachments 2 and 3. *)
Definition sample_page : list Memory :=
  [ post "m3" (Some [1%positive]) 9000000;
    post "m2" None 8000000;
    post "m1" (Some [2%positive; 3%positive]) 1000000 ].

Definition sample_inputs : Inputs :=
  {| conversationLength := 4;
     now := 10000000;
     factManager := sample_facts;
     recentMessagesPage := sample_page;
     formatted := fun k => JStr k;
     catalog := fun _ k => JStr ("computed " ++ k) |}.

End Composer.

(** ** Settings *)

Module Settings.

(** A value found in a settings object. *)
#[warnings="-register-all"]
Inductive sval :=
| SUndefined
| SNull
| SBool (b : bool)
| SNum (n : Z)
| SStr (s : string)
| SObj (fields : list (string * sval)).

(** Truthiness, as [if (v)] tests it. *)
Definition truthy (v : sval) : bool :=
  match v with
  | SUndefined | SNull => false
  | SBool b => b
  | SNum n => negb (n =? 0)
  | SStr s => JS.truthy_string s
  | SObj _ => true
  end.

(** The own property [k] among the fields of an object. *)
Fixpoint field (k : string) (fields : list (string * sval)) : sval :=
  match fields with
  | [] => SUndefined
  | (k', v) :: rest => if String.eqb k' k then v else field k rest
  end.

(** [o?.[k]]: undefined unless [o] is an object having [k]. *)
Definition get (o : sval) (k : string) : sval :=
  match o with
  | SObj fields => field k fields
  | _ => SUndefined
  end.

(** [AgentRuntime.getSetting]; [characterSettings] is
    [this.character.settings] and [settings] the imported settings
    object. *)
Definition getSetting (characterSettings settings : sval) (key : string) : sval :=
  if truthy (get (get characterSettings "secrets") key)
  then get (get characterSettings "secrets") key
  else if truthy (get characterSettings key)
  then get characterSettings key
  else if truthy (get settings key)
  then get settings key
  else SNull.

(** [a ?? b] *)
Definition nullish_or (a b : sval) : sval :=
  match a with
  | SUndefined | SNull => b
  | _ => a
  end.

End Settings.

(** ** Accounts, rooms and participants *)

Module Accounts.

(** An argument typed [string | null] that may also be left out. *)
Inductive optstr :=
| Undefined
| Null
| Str (s : string).

(** [a || b] on such an argument, [b] being a string. *)
Definition or_else (a : optstr) (b : string) : string :=
  match a with
  | Str s => if JS.truthy_string s then s else b
  | _ => b
  end.

(** [a || b] with both of that kind. *)
Definition or_opt (a b : optstr) : optstr :=
  match a with
  | Str s => if JS.truthy_string s then a else b
  | _ => b
  end.

(** The string a value becomes when concatenated. *)
Definition to_string (a : optstr) : string :=
  match a with
  | Undefined => "undefined"
  | Null => "null"
  | Str s => s
  end.

Record Account := {
  account_id : string;
  account_name : string;
  account_username : string;
  account_email : string;
  account_summary : string            (* details.summary *)
}.

(** The account literal passed to [createAccount] by [ensureUserExists]. *)
Definition new_account (userId : string) (userName name email source : optstr)
  : Account :=
  {| account_id := userId;
     account_name := or_else (or_opt name userName) "Unknown User";
     account_username := or_else (or_opt userName name) "Unknown";
     account_email :=
       or_else
         (or_opt email
            (Str (or_else userName "Bot" ++ "@" ++ to_string source)))
         "Unknown";
     account_summary := "" |}.

(** Whether a string has the character '@'. *)
Fixpoint has_at (s : string) : bool :=
  match s with
  | EmptyString => false
  | String c r => Ascii.eqb c "@"%char || has_at r
  end.

(** A write issued to the adapter. *)
Inductive write :=
| CreateAccount (a : Account)
| CreateRoom (roomId : string)
| AddParticipant (userId roomId : string).

Section Adapter.

(** The state of the database behind the adapter. *)
Variable DB : Type.

(** The operations of [IDatabaseAdapter] that the runtime uses here. *)
Record DatabaseAdapter := {
  getAccountById : DB -> string -> option Account;
  createAccount : DB -> Account -> DB;
  getRoom : DB -> string -> option string;
  createRoom : DB -> string -> DB;
  getParticipantsForAccount : DB -> string -> option (list string);
  getParticipantsForRoom : DB -> string -> list string;
  addParticipant : DB -> string -> string -> DB
}.

Variable adapter : DatabaseAdapter.

(** [AgentRuntime.ensureParticipantExists]: the participant is added when
    [participants?.length === 0]. *)
Definition ensureParticipantExists (db : DB) (userId roomId : string)
  : DB * list write :=
  match getParticipantsForAccount adapter db userId with
  | Some [] => (addParticipant adapter db userId roomId,
                [AddParticipant userId roomId])
  | _ => (db, [])
  end.

(** [AgentRuntime.ensureUserExists] *)
Definition ensureUserExists (db : DB) (userId : string)
    (userName name email source : optstr) : DB * list write :=
  match getAccountById adapter db userId with
  | Some _ => (db, [])
  | None =>
      let a := new_account userId userName name email source in
      (createAccount adapter db a, [CreateAccount a])
  end.

(** [userId] is among [participants]. *)
Definition includes_user (participants : list string) (userId : string) : bool :=
  existsb (String.eqb userId) participants.

(** [AgentRuntime.ensureParticipantInRoom] *)
Definition ensureParticipantInRoom (db : DB) (userId roomId : string)
  : DB * list write :=
  if includes_user (getParticipantsForRoom adapter db roomId) userId
  then (db, [])
  else (addParticipant adapter db userId roomId, [AddParticipant userId roomId]).

(** [AgentRuntime.ensureRoomExists] *)
Definition ensureRoomExists (db : DB) (roomId : string) : DB * list write :=
  match getRoom adapter db roomId with
  | Some _ => (db, [])
  | None => (createRoom adapter db roomId, [CreateRoom roomId])
  end.

(** What the runtime relies on: a write is seen by the matching read. *)
Definition reads_own_writes : Prop :=
  (forall db a, is_Some (getAccountById adapter (createAccount adapter db a)
                           (account_id a))) /\
  (forall db r, is_Some (getRoom adapter (createRoom adapter db r) r)) /\
  (forall db u r,
      includes_user (getParticipantsForRoom adapter
                       (addParticipant adapter db u r) r) u = true).

End Adapter.

Arguments getAccountById {DB} d db userId.
Arguments createAccount {DB} d db a.
Arguments getRoom {DB} d db roomId.
Arguments createRoom {DB} d db roomId.
Arguments getParticipantsForAccount {DB} d db userId.
Arguments getParticipantsForRoom {DB} d db roomId.
Arguments addParticipant {DB} d db userId roomId.
Arguments ensureParticipantExists {DB} adapter db userId roomId.
Arguments ensureUserExists {DB} adapter db userId userName name email source.
Arguments ensureParticipantInRoom {DB} adapter db userId roomId.
Arguments ensureRoomExists {DB} adapter db roomId.
Arguments reads_own_writes {DB} adapter.

(** An in-memory database, used as an instance of the adapter. *)
Record Tables := {
  accounts : list Account;
  rooms : list string;
  participants : list (string * string)     (* (userId, roomId) *)
}.

Definition in_memory : DatabaseAdapter Tables := {|
  getAccountById db userId :=
    List.find (fun a => String.eqb (account_id a) userId) (accounts db);
  createAccount db a :=
    {| accounts := a :: accounts db; rooms := rooms db;
       participants := participants db |};
  getRoom db roomId := List.find (String.eqb roomId) (rooms db);
  createRoom db roomId :=
    {| accounts := accounts db; rooms := roomId :: rooms db;
       participants := participants db |};
  getParticipantsForAccount db userId :=
    Some (map snd (List.filter (fun p => String.eqb (fst p) userId)
                     (participants db)));
  getParticipantsForRoom db roomId :=
    map fst (List.filter (fun p => String.eqb (snd p) roomId) (participants db));
  addParticipant db userId roomId :=
    {| accounts := accounts db; rooms := rooms db;
       participants := (userId, roomId) :: participants db |}
|}.

Definition empty_tables : Tables :=
  {| accounts := []; rooms := []; participants := [] |}.

End Accounts.

(** ** Typed completion wrappers *)

Module TypedCompletion.
Import Completion.

(** White space removed by [str.trim()], among 8-bit code units. *)
Definition is_space (c : ascii) : bool :=
  let n := nat_of_ascii c in
  ((9 <=? n) && (n <=? 13) || (n =? 32) || (n =? 160))%nat.

Fixpoint trim_start (s : string) : string :=
  match s with
  | EmptyString => EmptyString
  | String c r => if is_space c then trim_start r else s
  end.

(** [str.trim()] *)
Definition trim (s : string) : string :=
  string_of_list_ascii
    (rev (list_ascii_of_string
            (trim_start (string_of_list_ascii
                           (rev (list_ascii_of_string (trim_start s))))))).

(** The delays [d, 2d, 4d, ...] slept by a loop that sleeps and then
    doubles. *)
Fixpoint doubling (n : nat) (d : Z) : list Z :=
  match n with
  | O => []
  | S n' => d :: doubling n' (d * 2)
  end.

Section Wrappers.

Variable service : nat -> outcome.

(** The type of the parsed answer and the parser, which answers [None] for
    what the wrapper rejects (null, or a falsy value where the wrapper tests
    truthiness). *)
Variable T : Type.
Variable parse : string -> option T.

(** The loop [while (true)] shared by [booleanCompletion],
    [stringArrayCompletion], [objectArrayCompletion] and
    [shouldRespondCompletion]: a completion that throws and an answer that
    does not parse both lead to a sleep of [retryDelay], which is then
    doubled.  [fuel] bounds the iterations, [None] meaning it ran out;
    [sent] counts the requests made so far. *)
Fixpoint typedCompletion_loop (fuel sent : nat) (retryDelay : Z)
  : option T * list event :=
  match fuel with
  | O => (None, [])
  | S fuel' =>
      let '(r, evs) := completion_loop service 5 sent 1000 in
      match match r with
            | Returned response => parse response
            | Failed _ => None
            end with
      | Some parsedResponse => (Some parsedResponse, evs)
      | None =>
          let '(res, evs') :=
            typedCompletion_loop fuel' (sent + requests evs) (retryDelay * 2) in
          (res, evs ++ Sleep retryDelay :: evs')
      end
  end.

Definition typedCompletion (fuel : nat) : option T * list event :=
  typedCompletion_loop fuel 0 1000.

(** The loop of [messageCompletion]: an answer that does not parse is
    retried at once ([continue]); a completion that throws doubles
    [retryLength] and sleeps. *)
Fixpoint messageCompletion_loop (fuel sent : nat) (retryLength : Z)
  : option T * list event :=
  match fuel with
  | O => (None, [])
  | S fuel' =>
      let '(r, evs) := completion_loop service 5 sent 1000 in
      match r with
      | Returned response =>
          match parse response with
          | Some parsedContent => (Some parsedContent, evs)
          | None =>
              let '(res, evs') :=
                messageCompletion_loop fuel' (sent + requests evs) retryLength in
              (res, evs ++ evs')
          end
      | Failed _ =>
          let retryLength := retryLength * 2 in
          let '(res, evs') :=
            messageCompletion_loop fuel' (sent + requests evs) retryLength in
          (res, evs ++ Sleep retryLength :: evs')
      end
  end.

Definition messageCompletion (fuel : nat) : option T * list event :=
  messageCompletion_loop fuel 0 1000.

End Wrappers.

Arguments typedCompletion_loop service {T} parse fuel sent retryDelay.
Arguments typedCompletion service {T} parse fuel.
Arguments messageCompletion_loop service {T} parse fuel sent retryLength.
Arguments messageCompletion service {T} parse fuel.

(** [AgentRuntime.booleanCompletion], given [parseBooleanFromText]. *)
Definition booleanCompletion (service : nat -> outcome)
    (parseBooleanFromText : string -> option bool) (fuel : nat)
  : option bool * list event :=
  typedCompletion service (fun response => parseBooleanFromText (trim response)) fuel.

(** [AgentRuntime.shouldRespondCompletion], given
    [parseShouldRespondFromText]; the parsed value is tested for
    truthiness. *)
Definition shouldRespondCompletion (service : nat -> outcome)
    (parseShouldRespondFromText : string -> option string) (fuel : nat)
  : option string * list event :=
  typedCompletion service
    (fun response =>
       match parseShouldRespondFromText (trim response) with
       | Some s => if JS.truthy_string s then Some s else None
       | None => None
       end) fuel.

(** [AgentRuntime.stringArrayCompletion] and [objectArrayCompletion], given
    [parseJsonArrayFromText]. *)
Definition arrayCompletion {A : Type} (service : nat -> outcome)
    (parseJsonArrayFromText : string -> option (list A)) (fuel : nat)
  : option (list A) * list event :=
  typedCompletion service parseJsonArrayFromText fuel.

(** An endpoint that always answers: "maybe", but for the third answer,
    " yes ". *)
Definition third_time_yes (n : nat) : outcome :=
  Responded true (Some (Some (if (n =? 2)%nat then " yes " else "maybe")))%string.

(** A parser of "yes" and "no". *)
Definition yes_no (s : string) : option bool :=
  if String.eqb s "yes" then Some true
  else if String.eqb s "no" then Some false
  else None.

End TypedCompletion.

(** ** The memory endpoints of the agent server *)

Module MemoryApi.

(** A record of the [memories] array.  The fields taken from a request
    body hold whatever value the body carried. *)
Record Memory := {
  id : string;
  userId : Settings.sval;
  agentId : Settings.sval;
  content : Settings.sval;
  createdAt : string;
  updatedAt : option string
}.

Inductive body :=
| Message (message : string)
| MessageMemory (message : string) (memory : Memory)
| Memories (memories : list Memory).

(** [res.status(code).json(body)] *)
Record response := { status : nat; json : body }.

(** [v === q], [q] being a string. *)
Definition strict_eq (v : Settings.sval) (q : string) : bool :=
  match v with
  | Settings.SStr s => String.eqb s q
  | _ => false
  end.

(** [memories.findIndex(memory => memory.id === id)]; [None] stands
    for -1. *)
Fixpoint findIndex (wanted : string) (memories : list Memory) : option nat :=
  match memories with
  | [] => None
  | memory :: rest =>
      if String.eqb (id memory) wanted then Some O
      else S <$> findIndex wanted rest
  end.

(** POST /memories; [uuid] is the value of [uuidv4()] and [now] that of
    [new Date().toISOString()]. *)
Definition post (uuid now : string) (bodyUserId bodyAgentId bodyContent : Settings.sval)
    (memories : list Memory) : list Memory * response :=
  let newMemory :=
    {| id := uuid; userId := bodyUserId; agentId := bodyAgentId;
       content := bodyContent; createdAt := now; updatedAt := None |} in
  (memories ++ [newMemory],
   {| status := 201;
      json := MessageMemory "Memory created successfully" newMemory |}).

(** One [if (q) filtered = filtered.filter(...)] step of GET /memories. *)
Definition filter_by (field : Memory -> Settings.sval) (q : option string)
    (memories : list Memory) : list Memory :=
  match q with
  | Some s =>
      if JS.truthy_string s
      then List.filter (fun memory => strict_eq (field memory) s) memories
      else memories
  | None => memories
  end.

(** GET /memories, with the query parameters [userId] and [agentId]. *)
Definition get (queryUserId queryAgentId : option string) (memories : list Memory)
  : response :=
  {| status := 200;
     json := Memories (filter_by agentId queryAgentId
                         (filter_by userId queryUserId memories)) |}.

Definition not_found : response :=
  {| status := 404; json := Message "Memory not found" |}.

(** The two assignments of PUT on the record found. *)
Definition update (newContent : Settings.sval) (now : string) (memory : Memory)
  : Memory :=
  {| id := id memory; userId := userId memory; agentId := agentId memory;
     content := newContent; createdAt := createdAt memory;
     updatedAt := Some now |}.

(** PUT /memories/:id *)
Definition put (wanted : string) (newContent : Settings.sval) (now : string)
    (memories : list Memory) : list Memory * response :=
  match findIndex wanted memories with
  | None => (memories, not_found)
  | Some memoryIndex =>
      let memories' := alter (update newContent now) memoryIndex memories in
      (memories',
       {| status := 200;
          json :=
            match memories' !! memoryIndex with
            | Some memory => MessageMemory "Memory updated successfully" memory
            | None => Message "Memory updated successfully"
            end |})
  end.

(** DELETE /memories/:id; [splice(memoryIndex, 1)]. *)
Definition delete (wanted : string) (memories : list Memory)
  : list Memory * response :=
  match findIndex wanted memories with
  | None => (memories, not_found)
  | Some memoryIndex =>
      (base.delete memoryIndex memories,
       {| status := 200; json := Message "Memory deleted successfully" |})
  end.

Definition sample_memory (name user : string) : Memory :=
  {| id := name; userId := Settings.SStr user; agentId := Settings.SStr "agent";
     content := Settings.SStr "hi"; createdAt := "t0"; updatedAt := None |}.

End MemoryApi.

(** ** Random selection *)

Module Wallets.

Section Shuffle.

Context {A : Type}.

(** [[a[i], a[j]] = [a[j], a[i]]], both indices being in range (in the loop
    below [i] is, and so is [j], a floor of [Math.random() * (i + 1)]). *)
Definition swap (shuffled : list A) (i j : nat) : list A :=
  match shuffled !! i, shuffled !! j with
  | Some x, Some y => <[j := x]> (<[i := y]> shuffled)
  | _, _ => shuffled
  end.

(** The random source: [random_index i] is the value of
    [Math.floor(Math.random() * (i + 1))] in the iteration for [i]. *)
Variable random_index : nat -> nat.

(** [for (let i = shuffled.length - 1; i > 0; i--)], from [i] down. *)
Fixpoint shuffle_from (i : nat) (shuffled : list A) : list A :=
  match i with
  | O => shuffled
  | S i' => shuffle_from i' (swap shuffled i (random_index i))
  end.

(** [getRandomItems] *)
Definition getRandomItems (array : list A) (numItems : Z) : list A :=
  JS.slice (shuffle_from (length array - 1) array) 0 numItems.

End Shuffle.

End Wallets.

(** ** Reactions *)

Module Reactions.

(** [content.length > limit ? content.substring(0, limit) + "..." : content],
    as [handleReactionAdd] (limit 100) and [handleReactionRemove] (limit 50)
    compute [truncatedContent]. *)
Definition truncate (limit : nat) (messageContent : string) : string :=
  if (limit <? String.length messageContent)%nat
  then (String.substring 0 limit messageContent ++ "...")%string
  else messageContent.

(** The double quote, as a string. *)
Definition quote : string := String (ascii_of_nat 34) EmptyString.

(** [reactionMessage] of [handleReactionAdd] *)
Definition reactionAdded (emoji messageContent : string) : string :=
  ("*<" ++ emoji ++ ">: " ++ quote ++ truncate 100 messageContent
     ++ quote ++ "*")%string.

(** [reactionMessage] of [handleReactionRemove] *)
Definition reactionRemoved (emoji messageContent : string) : string :=
  ("*Removed <" ++ emoji ++ " emoji> from: " ++ quote
     ++ truncate 50 messageContent ++ quote ++ "*")%string.

End Reactions.

(** ** Refreshing the recent messages of a state *)

Module Refresh.
Import Composer.

(** [msg.createdAt >= oneHourBeforeLastMessage]: false when either side is
    missing. *)
Definition withinWindow (oneHourBeforeLastMessage : option Z) (msg : Memory)
  : bool :=
  match createdAt msg, oneHourBeforeLastMessage with
  | Some msgTime, Some bound => msgTime >=? bound
  | _, _ => false
  end.

(** [allAttachments] of [updateRecentMessageState]. *)
Definition refreshed_attachments (recentMessagesData : list Memory) : list loc :=
  match List.find has_attachments recentMessagesData with
  | None => []
  | Some lastMessageWithAttachment =>
      let oneHourBeforeLastMessage :=
        (fun lastMessageTime => lastMessageTime - 60 * 60 * 1000)
          <$> createdAt lastMessageWithAttachment in
      concat (map attachments_or_empty
                (List.filter (withinWindow oneHourBeforeLastMessage)
                   recentMessagesData))
  end.

(** The line feed, as a string. *)
Definition nl : string := String (ascii_of_nat 10) EmptyString.

(** The template literal applied to one attachment. *)
Definition format_attachment (a : Media) : string :=
  ("ID: " ++ media_id a ++ nl ++
   "Name: " ++ media_title a ++ nl ++
   "URL: " ++ media_url a ++ " " ++ nl ++
   "Type: " ++ media_source a ++ nl ++
   "Description: " ++ media_description a ++ nl ++
   "Text: " ++ media_text a ++ nl ++
   "    ")%string.

(** [strings.join(sep)] *)
Fixpoint join (sep : string) (strings : list string) : string :=
  match strings with
  | [] => EmptyString
  | [s] => s
  | s :: rest => (s ++ sep ++ join sep rest)%string
  end.

(** [formattedAttachments]; the attachment objects are read from [h]. *)
Definition formattedAttachments (h : gmap loc Media) (allAttachments : list loc)
  : string :=
  join nl (format_attachment <$> omap (fun a => h !! a) allAttachments).

(** [AgentRuntime.updateRecentMessageState]; [recentMessagesData] is the page
    read from the message manager and [recentMessages] the text
    [addHeader("# Conversation Messages", formatMessages(...))]. *)
Definition updateRecentMessageState (h : gmap loc Media)
    (recentMessagesData : list Memory) (recentMessages : string)
    (state : gmap string jsval) : gmap string jsval :=
  <["attachments"%string :=
      JStr (formattedAttachments h (refreshed_attachments recentMessagesData))]>
    (<["recentMessagesData"%string := JMemories recentMessagesData]>
       (<["recentMessages"%string := JStr recentMessages]> state)).

End Refresh.

(** ** Posting a tweet *)

Module Tweets.





End Tweets.

(** ** Starting the clients of an agent *)

Module Agents.

Inductive client :=
| Telegram
| TwitterInteraction
| TwitterSearch
| TwitterGeneration.

(** [character.clients.map((str) => str.toLowerCase()).includes(name)] *)
Definition lists_client (clients : list string) (name : string) : bool :=
  existsb (String.eqb name) (map JS.toLowerCase clients).

(** [character.settings?.secrets?.TELEGRAM_BOT_TOKEN ??
    settings.TELEGRAM_BOT_TOKEN] *)
Definition botToken (characterSettings settings : Settings.sval) : Settings.sval :=
  Settings.nullish_or
    (Settings.get (Settings.get characterSettings "secrets") "TELEGRAM_BOT_TOKEN")
    (Settings.get settings "TELEGRAM_BOT_TOKEN").

(** The clients collected by [startAgent] once the runtimes exist; [None]
    when the character has no [clients] field, which is reported and ends
    the function.  [telegramStarts] tells whether the Telegram client, once
    given a token, starts without throwing; a failure there is caught. *)
Definition startAgent_clients (argvTelegram : bool)
    (characterClients : option (list string))
    (characterSettings settings : Settings.sval) (telegramStarts : bool)
  : option (list client) :=
  match characterClients with
  | None => None
  | Some clients =>
      let telegram :=
        if argvTelegram || lists_client clients "telegram" then
          if Settings.truthy (botToken characterSettings settings) && telegramStarts
          then [Telegram] else []
        else [] in
      let twitter :=
        if lists_client clients "twitter"
        then [TwitterInteraction; TwitterSearch; TwitterGeneration] else [] in
      Some (telegram ++ twitter)
  end.

End Agents.

(** * Properties *)

(** ** Slices *)

Lemma rel_index_nonneg (len i : Z) :
  0 <= i -> JS.rel_index len i = Z.min i len.
Proof.
  intros Hi. unfold JS.rel_index.
  destruct (Z.ltb_spec i 0); [lia | reflexivity].
Qed.

Lemma slice_from_drop {A : Type} (l : list A) (b : Z) :
  0 <= b -> JS.slice_from l b = drop (Z.to_nat b) l.
Proof.
  intros Hb. unfold JS.slice_from, JS.slice.
  rewrite !rel_index_nonneg by lia.
  rewrite Z.min_id.
  destruct (Z.le_gt_cases b (Z.of_nat (length l))) as [Hle | Hgt].
  - rewrite Z.min_l by lia.
    apply take_ge. rewrite length_drop. lia.
  - rewrite Z.min_r by lia.
    rewrite Z.sub_diag. simpl.
    symmetry. apply drop_ge. lia.
Qed.

Lemma slice_window {A : Type} (l : list A) (i n : Z) :
  0 <= i -> 0 <= n ->
  JS.slice l i (i + n) = take (Z.to_nat n) (drop (Z.to_nat i) l).
Proof.
  intros Hi Hn. unfold JS.slice.
  rewrite !rel_index_nonneg by lia.
  destruct (Z.le_gt_cases i (Z.of_nat (length l))) as [Hle | Hgt].
  - rewrite (Z.min_l i) by lia.
    destruct (Z.le_gt_cases (i + n) (Z.of_nat (length l))) as [Hle' | Hgt'].
    + rewrite Z.min_l by lia. f_equal. lia.
    + rewrite Z.min_r by lia.
      rewrite !take_ge; [reflexivity | rewrite length_drop; lia ..].
  - rewrite !drop_ge by lia. by rewrite !take_nil.
Qed.

(** ** Token budget *)

Section TokenBudget.

Context {model : Type} (encoding_for_model : model -> Encoding).

Lemma trimTokens_retained_front (context : string) (b : Z) (m : model) :
  0 <= b ->
  trimTokens_retained encoding_for_model context b m =
  take (length (encode (encoding_for_model m) context) - Z.to_nat b)
       (encode (encoding_for_model m) context).
Proof.
  intros Hb. unfold trimTokens_retained.
  rewrite slice_from_drop by assumption.
  rewrite skipn_rev. apply rev_involutive.
Qed.

Lemma trimTokens_over_budget (context : string) (b : Z) (m : model) :
  b < count_tokens encoding_for_model m context ->
  trimTokens encoding_for_model context b m =
  decode (encoding_for_model m)
         (trimTokens_retained encoding_for_model context b m).
Proof.
  unfold count_tokens, trimTokens, trimTokens_retained. intros Hlt.
  destruct (Z.gtb_spec (Z.of_nat (length (encode (encoding_for_model m) context))) b);
    [reflexivity | lia].
Qed.

(** Over budget, what is kept is the front of the token stream, and it has
    [count - b] tokens. *)
Lemma trimTokens_retained_length (context : string) (b : Z) (m : model) :
  0 <= b < count_tokens encoding_for_model m context ->
  Z.of_nat (length (trimTokens_retained encoding_for_model context b m)) =
  count_tokens encoding_for_model m context - b.
Proof.
  intros [Hb Hlt]. rewrite trimTokens_retained_front by assumption.
  unfold count_tokens in *. rewrite length_take. lia.
Qed.

End TokenBudget.

(** C1. The claim: over budget, [trimTokens] keeps exactly the last [b]
    tokens, so at most [b] of them.  On the text "abcde" (five tokens under
    the byte-level model) with budget 1 the code returns "abcd": four
    tokens, the front of the stream, while the last token "e" is the one
    dropped. *)
Theorem trimTokens_keeps_front_at_input :
  count_tokens sample_encoding ByteModel "abcde" = 5 /\
  trimTokens sample_encoding "abcde" 1 ByteModel = "abcd"%string /\
  count_tokens sample_encoding ByteModel
    (trimTokens sample_encoding "abcde" 1 ByteModel) = 4 /\
  trimTokens_retained sample_encoding "abcde" 1 ByteModel =
    take 4 (encode char_encoding "abcde") /\
  trimTokens_retained sample_encoding "abcde" 1 ByteModel <>
    drop 4 (encode char_encoding "abcde").
Proof.
  repeat split; try reflexivity.
  vm_compute. discriminate.
Qed.

(** C10. At or below the budget [trimTokens] returns its input unchanged. *)
Theorem trimTokens_identity_within_budget {model : Type}
    (encoding_for_model : model -> Encoding)
    (context : string) (maxTokens : Z) (m : model) :
  count_tokens encoding_for_model m context <= maxTokens ->
  trimTokens encoding_for_model context maxTokens m = context.
Proof.
  unfold count_tokens, trimTokens. intros Hle.
  destruct (Z.gtb_spec (Z.of_nat (length (encode (encoding_for_model m) context)))
              maxTokens); [lia | reflexivity].
Qed.

Lemma trimTokens_identity_within_budget_witness :
  count_tokens sample_encoding PairModel "abcde" <= 3 /\
  trimTokens sample_encoding "abcde" 3 PairModel = "abcde"%string.
Proof.
  split.
  - vm_compute. discriminate.
  - apply (trimTokens_identity_within_budget sample_encoding "abcde" 3 PairModel).
    vm_compute. discriminate.
Defined.

(** ** Chunking *)

Section Chunking.

Variable encoding : Encoding.
Variable content : string.
Variable tokens : list token.
Variables chunkSize bleed : Z.

(** With a positive chunk size the loop ends: as many iterations as there
    are tokens left always suffice. *)
Lemma splitChunks_loop_terminates (fuel : nat) (i : Z) :
  0 < chunkSize -> 0 <= i ->
  (length tokens - Z.to_nat i <= fuel)%nat ->
  is_Some (splitChunks_loop fuel encoding content tokens chunkSize bleed i).
Proof.
  intros Hpos. revert i.
  induction fuel as [| fuel IH]; intros i Hi Hfuel; simpl.
  - destruct (Z.ltb_spec i (Z.of_nat (length tokens))); [lia | eauto].
  - destruct (Z.ltb_spec i (Z.of_nat (length tokens))); [| eauto].
    destruct (IH (i + chunkSize)) as [rest Hrest]; [lia | lia |].
    rewrite Hrest. simpl. eauto.
Qed.

(** With a chunk size that is not positive and at least one token, the
    loop never ends. *)
Lemma splitChunks_loop_diverges (fuel : nat) (i : Z) :
  chunkSize <= 0 -> i < Z.of_nat (length tokens) ->
  splitChunks_loop fuel encoding content tokens chunkSize bleed i = None.
Proof.
  intros Hneg. revert i.
  induction fuel as [| fuel IH]; intros i Hi; simpl;
    destruct (Z.ltb_spec i (Z.of_nat (length tokens))); try lia; try reflexivity.
  rewrite IH by lia. reflexivity.
Qed.

Hypothesis decode_nil : decode encoding [] = EmptyString.
Hypothesis decode_app : forall a b,
  decode encoding (a ++ b) = (decode encoding a ++ decode encoding b)%string.

(** The cores cover the token stream from the starting index on. *)
Lemma splitChunks_loop_covering (fuel : nat) (i : Z) (parts : list chunk_parts) :
  0 < chunkSize -> 0 <= i ->
  splitChunks_loop fuel encoding content tokens chunkSize bleed i = Some parts ->
  cores_text parts = decode encoding (drop (Z.to_nat i) tokens).
Proof.
  intros Hpos. revert i parts.
  induction fuel as [| fuel IH]; intros i parts Hi; simpl;
    destruct (Z.ltb_spec i (Z.of_nat (length tokens))) as [Hlt | Hge];
    intros Hrun; try discriminate.
  - injection Hrun as <-. rewrite drop_ge by lia. by rewrite decode_nil.
  - destruct (splitChunks_loop fuel encoding content tokens chunkSize bleed
                (i + chunkSize)) as [rest |] eqn:Hrest; [| discriminate].
    simpl in Hrun. injection Hrun as <-. simpl.
    assert (Hnext : 0 <= i + chunkSize) by lia.
    rewrite (IH _ _ Hnext Hrest).
    rewrite slice_window by lia.
    rewrite <- decode_app.
    replace (Z.to_nat (i + chunkSize)) with (Z.to_nat i + Z.to_nat chunkSize)%nat by lia.
    rewrite <- drop_drop. by rewrite take_drop.
  - injection Hrun as <-. rewrite drop_ge by lia. by rewrite decode_nil.
Qed.

End Chunking.

(** For an encoding whose decoding distributes over concatenation and
    inverts the encoding, the cores of the chunks put together give the
    input back. *)
Lemma splitChunks_cores_cover (encoding : Encoding) (content : string)
    (chunkSize bleed : Z) (fuel : nat) (parts : list chunk_parts) :
  decode encoding [] = EmptyString ->
  (forall a b, decode encoding (a ++ b)
               = (decode encoding a ++ decode encoding b)%string) ->
  decode encoding (encode encoding content) = content ->
  0 < chunkSize ->
  splitChunks_parts fuel encoding content chunkSize bleed = Some parts ->
  cores_text parts = content.
Proof.
  intros Hnil Happ Hinv Hpos Hrun. unfold splitChunks_parts in Hrun.
  rewrite (splitChunks_loop_covering _ _ _ _ _ Hnil Happ _ _ _ Hpos (Z.le_refl 0) Hrun).
  simpl. exact Hinv.
Qed.

(** Under the byte-level model, a bleed wider than the starting index makes
    the start of the slice negative, and the bleed comes out empty. *)
Example splitChunks_wide_bleed :
  splitChunks_parts 3 char_encoding "abcdef" 2 3 =
  Some [ {| startBleed := ""; decodedChunk := "ab"; endBleed := "cde" |};
         {| startBleed := ""; decodedChunk := "cd"; endBleed := "ef" |};
         {| startBleed := "bcd"; decodedChunk := "ef"; endBleed := "" |} ].
Proof. reflexivity. Qed.

(** C6. The claim: the bleed of a chunk is made of the characters of the
    text that neighbour its core.  Under the pair model "abcdefgh" has the
    tokens ab, cd, ef, gh; with one token per chunk and a bleed of 1 the
    cores do give the text back, but the second chunk, whose core "cd" sits
    at characters 2..3, gets the bleeds "a" and "c" (characters 0 and 2,
    found with the token index) where its neighbours are "b" and "e". *)
Theorem splitChunks_bleed_at_input :
  splitChunks_parts 4 pair_encoding "abcdefgh" 1 1 =
  Some [ {| startBleed := ""; decodedChunk := "ab"; endBleed := "b" |};
         {| startBleed := "a"; decodedChunk := "cd"; endBleed := "c" |};
         {| startBleed := "b"; decodedChunk := "ef"; endBleed := "d" |};
         {| startBleed := "c"; decodedChunk := "gh"; endBleed := "" |} ] /\
  splitChunks 4 pair_encoding "abcdefgh" 1 1 =
  Some [ "abb"; "acdc"; "befd"; "cgh" ]%string /\
  literal_bleed_before "abcdefgh" 2 1 = "b"%string /\
  literal_bleed_after "abcdefgh" 2 2 1 = "e"%string.
Proof. repeat split; reflexivity. Qed.

(** ** Completion: bounded retry with doubling delay *)

Module CompletionFacts.
Import Completion.

Lemma backoff_lookup (n : nat) (retryLength : Z) (k : nat) (d : Z) :
  backoff n retryLength !! k = Some d ->
  d = retryLength * 2 ^ (Z.of_nat k + 1).
Proof.
  revert retryLength k. induction n as [| n IH]; intros r k; simpl.
  - intros H. discriminate.
  - destruct k as [| k]; simpl.
    + intros [= <-]. lia.
    + intros H. apply IH in H. subst d.
      replace (Z.of_nat (S k) + 1) with (Z.succ (Z.of_nat k + 1)) by lia.
      rewrite Z.pow_succ_r by lia. lia.
Qed.

Section Loop.

Variable service : nat -> outcome.

Lemma loop_requests_bounded (triesLeft sent : nat) (retryLength : Z) :
  (requests (completion_loop service triesLeft sent retryLength).2
   <= triesLeft)%nat.
Proof.
  revert sent retryLength.
  induction triesLeft as [| n IH]; intros sent r; simpl; [lia |].
  destruct (attempt (service sent)); simpl; [lia |].
  specialize (IH (S sent) (r * 2)).
  destruct (completion_loop service n (S sent) (r * 2)) as [res evs].
  simpl in *. lia.
Qed.

Lemma loop_all_fail (triesLeft sent : nat) (retryLength : Z) :
  (forall j, (j < triesLeft)%nat -> attempt (service (sent + j)) = None) ->
  let '(res, evs) := completion_loop service triesLeft sent retryLength in
  res = Failed exhausted_message /\
  requests evs = triesLeft /\
  sleeps evs = backoff triesLeft retryLength.
Proof.
  revert sent retryLength.
  induction triesLeft as [| n IH]; intros sent r Hfail; simpl; [done |].
  assert (H0 : attempt (service sent) = None).
  { pose proof (Hfail 0%nat) as H0. rewrite Nat.add_0_r in H0. apply H0. lia. }
  rewrite H0.
  specialize (IH (S sent) (r * 2)).
  destruct (completion_loop service n (S sent) (r * 2)) as [res evs].
  destruct IH as (-> & Hreq & Hsl).
  { intros j Hj. replace (S sent + j)%nat with (sent + S j)%nat by lia.
    apply Hfail. lia. }
  simpl. rewrite Hreq, Hsl. done.
Qed.

Lemma loop_first_success (triesLeft sent : nat) (retryLength : Z)
    (k : nat) (content : string) :
  (k < triesLeft)%nat ->
  attempt (service (sent + k)) = Some content ->
  (forall j, (j < k)%nat -> attempt (service (sent + j)) = None) ->
  let '(res, evs) := completion_loop service triesLeft sent retryLength in
  res = Returned content /\
  requests evs = S k /\
  sleeps evs = backoff k retryLength.
Proof.
  revert sent retryLength k.
  induction triesLeft as [| n IH]; intros sent r k Hk Hok Hfail; [lia |].
  simpl. destruct k as [| k].
  - rewrite Nat.add_0_r in Hok. rewrite Hok. done.
  - assert (H0 : attempt (service sent) = None).
    { pose proof (Hfail 0%nat) as H0. rewrite Nat.add_0_r in H0. apply H0. lia. }
    rewrite H0.
    specialize (IH (S sent) (r * 2) k).
    destruct (completion_loop service n (S sent) (r * 2)) as [res evs].
    destruct IH as (-> & Hreq & Hsl).
    + lia.
    + replace (S sent + k)%nat with (sent + S k)%nat by lia. exact Hok.
    + intros j Hj. replace (S sent + j)%nat with (sent + S j)%nat by lia.
      apply Hfail. lia.
    + simpl. rewrite Hreq, Hsl. done.
Qed.

(** Every delay slept is the base delay doubled once per failure so
    far. *)
Lemma loop_sleeps_double (triesLeft sent : nat) (retryLength : Z)
    (k : nat) (d : Z) :
  sleeps (completion_loop service triesLeft sent retryLength).2 !! k = Some d ->
  d = retryLength * 2 ^ (Z.of_nat k + 1).
Proof.
  revert sent retryLength k.
  induction triesLeft as [| n IH]; intros sent r k; simpl.
  - intros H. discriminate.
  - destruct (attempt (service sent)); simpl; [intros H; discriminate |].
    specialize (IH (S sent) (r * 2)).
    destruct (completion_loop service n (S sent) (r * 2)) as [res evs].
    simpl in *.
    destruct k as [| k]; simpl.
    + intros [= <-]. lia.
    + intros H. apply IH in H. subst d.
      replace (Z.of_nat (S k) + 1) with (Z.succ (Z.of_nat k + 1)) by lia.
      rewrite Z.pow_succ_r by lia. lia.
Qed.

End Loop.

End CompletionFacts.

(** What the [try] block does with each kind of outcome. *)
Lemma attempt_failure (o : Completion.outcome) :
  o = Completion.Rejected \/
  (exists body, o = Completion.Responded false body) \/
  o = Completion.Responded true None \/
  o = Completion.Responded true (Some None) \/
  o = Completion.Responded true (Some (Some EmptyString)) ->
  Completion.attempt o = None.
Proof.
  intros [-> | [[body ->] | [-> | [-> | ->]]]]; reflexivity.
Qed.

Lemma attempt_content (content : string) :
  content <> EmptyString ->
  Completion.attempt (Completion.Responded true (Some (Some content)))
  = Some content.
Proof. intros Hne. simpl. destruct content; [congruence | reflexivity]. Qed.

(** C7. [completion] sends at most five requests, whatever the endpoint
    does.  An attempt fails, and is retried, when the fetch is rejected,
    the response is not ok, [json()] fails, or the content is missing or
    empty; the delay variable starts at 1000 ms and is doubled at every
    failure before the sleep, so the delays are 2000, 4000, ... ms.  When the
    five attempts fail the call ends with the error, not with a value; and
    an ok response carrying a non-empty content is returned at once, no
    further request being sent. *)
Theorem completion_bounded_retry
    (service failing answering : nat -> Completion.outcome)
    (k : nat) (content : string) :
  let failure := fun o : Completion.outcome =>
    o = Completion.Rejected \/
    (exists body, o = Completion.Responded false body) \/
    o = Completion.Responded true None \/
    o = Completion.Responded true (Some None) \/
    o = Completion.Responded true (Some (Some EmptyString)) in
  (forall j, (j < 5)%nat -> failure (failing j)) ->
  (k < 5)%nat ->
  (forall j, (j < k)%nat -> failure (answering j)) ->
  answering k = Completion.Responded true (Some (Some content)) ->
  content <> EmptyString ->
  (Completion.requests (Completion.completion service).2 <= 5)%nat /\
  (forall i d,
      Completion.sleeps (Completion.completion service).2 !! i = Some d ->
      d = 1000 * 2 ^ (Z.of_nat i + 1)) /\
  Completion.completion failing =
    (Completion.Failed Completion.exhausted_message,
     [Completion.Request; Completion.Sleep 2000;
      Completion.Request; Completion.Sleep 4000;
      Completion.Request; Completion.Sleep 8000;
      Completion.Request; Completion.Sleep 16000;
      Completion.Request; Completion.Sleep 32000]) /\
  (Completion.completion answering).1 = Completion.Returned content /\
  Completion.requests (Completion.completion answering).2 = S k /\
  Completion.sleeps (Completion.completion answering).2
    = Completion.backoff k 1000 /\
  last (Completion.completion answering).2 = Some Completion.Request.
Proof.
  cbv zeta. intros Hfailing Hk Hbefore Hanswer Hcontent.
  split; [apply CompletionFacts.loop_requests_bounded |].
  split; [apply CompletionFacts.loop_sleeps_double |].
  split.
  - assert (Hnone : forall j, (j < 5)%nat -> Completion.attempt (failing j) = None)
      by (intros j Hj; apply attempt_failure, Hfailing, Hj).
    unfold Completion.completion. simpl.
    rewrite (Hnone 0%nat), (Hnone 1%nat), (Hnone 2%nat), (Hnone 3%nat),
      (Hnone 4%nat) by lia.
    reflexivity.
  - assert (Hok : Completion.attempt (answering k) = Some content)
      by (rewrite Hanswer; by apply attempt_content).
    assert (Hfail : forall j, (j < k)%nat -> Completion.attempt (answering j) = None)
      by (intros j Hj; apply attempt_failure, Hbefore, Hj).
    pose proof (CompletionFacts.loop_first_success answering 5 0 1000 k content
                  Hk Hok Hfail) as H.
    unfold Completion.completion.
    destruct (Completion.completion_loop answering 5 0 1000) as [res evs] eqn:Hrun.
    destruct H as (-> & Hreq & Hsl). simpl.
    repeat split; [exact Hreq | exact Hsl |].
    revert Hrun. simpl.
    repeat (match goal with
            | |- context [Completion.attempt (answering ?n)] =>
                destruct (Completion.attempt (answering n))
            end;
            [ intros [= _ <-]; reflexivity | ]).
    intros [=].
Qed.

Lemma completion_bounded_retry_witness :
  let failing := fun n : nat =>
    match n with
    | 0%nat => Completion.Rejected
    | 1%nat => Completion.Responded false (Some (Some "busy"%string))
    | 2%nat => Completion.Responded true None
    | 3%nat => Completion.Responded true (Some None)
    | _ => Completion.Responded true (Some (Some EmptyString))
    end in
  let answering := fun n : nat =>
    match n with
    | 0%nat => Completion.Rejected
    | 1%nat => Completion.Responded true (Some (Some EmptyString))
    | _ => Completion.Responded true (Some (Some "hello"%string))
    end in
  (Completion.requests (Completion.completion answering).2 <= 5)%nat /\
  (forall i d,
      Completion.sleeps (Completion.completion answering).2 !! i = Some d ->
      d = 1000 * 2 ^ (Z.of_nat i + 1)) /\
  Completion.completion failing =
    (Completion.Failed Completion.exhausted_message,
     [Completion.Request; Completion.Sleep 2000;
      Completion.Request; Completion.Sleep 4000;
      Completion.Request; Completion.Sleep 8000;
      Completion.Request; Completion.Sleep 16000;
      Completion.Request; Completion.Sleep 32000]) /\
  (Completion.completion answering).1 = Completion.Returned "hello" /\
  Completion.requests (Completion.completion answering).2 = 3%nat /\
  Completion.sleeps (Completion.completion answering).2 = [2000; 4000] /\
  last (Completion.completion answering).2 = Some Completion.Request.
Proof.
  cbv zeta.
  apply (completion_bounded_retry
           (fun n : nat =>
              match n with
              | 0%nat => Completion.Rejected
              | 1%nat => Completion.Responded true (Some (Some EmptyString))
              | _ => Completion.Responded true (Some (Some "hello"%string))
              end)
           (fun n : nat =>
              match n with
              | 0%nat => Completion.Rejected
              | 1%nat => Completion.Responded false (Some (Some "busy"%string))
              | 2%nat => Completion.Responded true None
              | 3%nat => Completion.Responded true (Some None)
              | _ => Completion.Responded true (Some (Some EmptyString))
              end)
           (fun n : nat =>
              match n with
              | 0%nat => Completion.Rejected
              | 1%nat => Completion.Responded true (Some (Some EmptyString))
              | _ => Completion.Responded true (Some (Some "hello"%string))
              end)
           2%nat "hello"%string).
  - intros [| [| [| [| [| j]]]]] Hj; simpl; eauto 6; lia.
  - lia.
  - intros [| [| j]] Hj; simpl; eauto 6; lia.
  - reflexivity.
  - discriminate.
Defined.

(** ** Embedding cache *)

Module EmbeddingFacts.
Import Embedding.

(** A vector found by the lookup is the vector of a stored record whose
    text is the input. *)
Lemma retrieveCachedEmbedding_sound (messages : list Memory) (input : string)
    (v : vector) :
  retrieveCachedEmbedding messages input = Some v ->
  exists r, In r messages /\ text r = input /\ embedding r = Some v.
Proof.
  unfold retrieveCachedEmbedding, getCachedEmbeddings.
  destruct (List.filter _ messages) as [| r rest] eqn:Hf; [discriminate |].
  intros Hv. exists r.
  assert (Hin : In r (List.filter (fun m => String.eqb (text m) input) messages)).
  { rewrite Hf. left. reflexivity. }
  apply filter_In in Hin as [Hin Heq].
  apply String.eqb_eq in Heq. auto.
Qed.

(** Without a stored record of that text the lookup finds nothing. *)
Lemma retrieveCachedEmbedding_miss (messages : list Memory) (input : string) :
  (forall r, In r messages -> text r <> input) ->
  retrieveCachedEmbedding messages input = None.
Proof.
  intros Hno. unfold retrieveCachedEmbedding, getCachedEmbeddings.
  destruct (List.filter _ messages) as [| r rest] eqn:Hf; [reflexivity |].
  assert (Hin : In r (List.filter (fun m => String.eqb (text m) input) messages)).
  { rewrite Hf. left. reflexivity. }
  apply filter_In in Hin as [Hin Heq].
  apply String.eqb_eq in Heq. exfalso. eapply Hno; eauto.
Qed.

(** On a hit no request is sent. *)
Lemma embed_hit (env : Env) (messages : list Memory) (input : string)
    (v : vector) :
  hasOpenAIKey env = true ->
  retrieveCachedEmbedding messages input = Some v ->
  embed env messages input = (Returned (Some v), [CacheLookup input]).
Proof. intros Hkey Hhit. unfold embed. by rewrite Hkey, Hhit. Qed.

(** On a miss exactly one request is sent. *)
Lemma embed_miss (env : Env) (messages : list Memory) (input : string) :
  hasOpenAIKey env = true ->
  retrieveCachedEmbedding messages input = None ->
  (embed env messages input).2 = [CacheLookup input; RemoteCall input].
Proof.
  intros Hkey Hmiss. unfold embed. rewrite Hkey, Hmiss. simpl.
  destruct (remote env input) as [| [] data]; reflexivity.
Qed.

End EmbeddingFacts.

(** C5, as stated, fails: with the key set, an empty messages namespace and
    an endpoint that answers, two calls of [embed] on "hello" return the
    same vector but send two requests. *)
Lemma embed_twice_two_requests :
  let '(r1, r2, evs) := Embedding.embed_twice Embedding.sample_env [] "hello" in
  r1 = r2 /\
  Embedding.remote_calls evs = 2%nat /\
  ~ (Embedding.remote_calls evs <= 1)%nat.
Proof. simpl. repeat split. lia. Qed.

(** C5, amended.  With the API key set, [embed] first looks among the stored
    messages for the first record whose text is exactly the input.  When
    that record carries a vector, each of two calls returns this vector
    after the lookup alone: no request is sent.  When no stored record has
    that text, each call sends one request, two in all, since [embed] stores
    nothing; the two calls return the same result when the endpoint answers
    the same. *)
Theorem embed_twice_cache (env : Embedding.Env)
    (before after others : list Memory) (r : Memory) (v : vector)
    (input : string) :
  Embedding.hasOpenAIKey env = true ->
  (forall m, In m before -> text m <> input) ->
  text r = input ->
  embedding r = Some v ->
  (forall m, In m others -> text m <> input) ->
  Embedding.embed_twice env (before ++ r :: after) input =
    (Embedding.Returned (Some v), Embedding.Returned (Some v),
     [Embedding.CacheLookup input; Embedding.CacheLookup input]) /\
  Embedding.remote_calls
    (Embedding.embed_twice env (before ++ r :: after) input).2 = 0%nat /\
  Embedding.embed_twice env others input =
    (match Embedding.remote env input with
     | Embedding.RemoteResponded true data => Embedding.Returned data
     | _ => Embedding.Threw
     end,
     match Embedding.remote env input with
     | Embedding.RemoteResponded true data => Embedding.Returned data
     | _ => Embedding.Threw
     end,
     [Embedding.CacheLookup input; Embedding.RemoteCall input;
      Embedding.CacheLookup input; Embedding.RemoteCall input]) /\
  Embedding.remote_calls (Embedding.embed_twice env others input).2 = 2%nat.
Proof.
  intros Hkey Hbefore Htext Hvec Hothers.
  assert (Hhit : Embedding.retrieveCachedEmbedding (before ++ r :: after) input
                 = Some v).
  { unfold Embedding.retrieveCachedEmbedding, Embedding.getCachedEmbeddings.
    rewrite List.filter_app.
    replace (List.filter (fun m => String.eqb (text m) input) before)
      with (@nil Memory).
    - simpl. rewrite Htext, String.eqb_refl. exact Hvec.
    - symmetry. clear -Hbefore. induction before as [| m l IH]; [reflexivity |].
      simpl. destruct (String.eqb_spec (text m) input) as [Heq | Hne].
      + exfalso. apply (Hbefore m); [by left | exact Heq].
      + apply IH. intros m' Hm'. apply Hbefore. by right. }
  assert (Hmiss : Embedding.retrieveCachedEmbedding others input = None)
    by (by apply EmbeddingFacts.retrieveCachedEmbedding_miss).
  assert (Hrun1 : Embedding.embed_twice env (before ++ r :: after) input =
    (Embedding.Returned (Some v), Embedding.Returned (Some v),
     [Embedding.CacheLookup input; Embedding.CacheLookup input])).
  { unfold Embedding.embed_twice.
    by rewrite (EmbeddingFacts.embed_hit env _ input v Hkey Hhit). }
  assert (Hrun2 : Embedding.embed_twice env others input =
    (match Embedding.remote env input with
     | Embedding.RemoteResponded true data => Embedding.Returned data
     | _ => Embedding.Threw
     end,
     match Embedding.remote env input with
     | Embedding.RemoteResponded true data => Embedding.Returned data
     | _ => Embedding.Threw
     end,
     [Embedding.CacheLookup input; Embedding.RemoteCall input;
      Embedding.CacheLookup input; Embedding.RemoteCall input])).
  { unfold Embedding.embed_twice, Embedding.embed. rewrite Hkey, Hmiss. simpl.
    destruct (Embedding.remote env input) as [| [] data]; reflexivity. }
  rewrite Hrun1, Hrun2. repeat split.
Qed.

Lemma embed_twice_cache_witness :
  let bye := {| id := "m0"; text := "bye"; attachments := None;
                embedding := Some [4; 5; 6]; createdAt := Some 0 |} in
  let later := {| id := "m2"; text := "hello"; attachments := None;
                  embedding := Some [0; 0; 0]; createdAt := Some 0 |} in
  Embedding.embed_twice Embedding.sample_env
    ([bye] ++ Embedding.sample_record :: [later]) "hello" =
    (Embedding.Returned (Some [7; 8; 9]), Embedding.Returned (Some [7; 8; 9]),
     [Embedding.CacheLookup "hello"; Embedding.CacheLookup "hello"]) /\
  Embedding.remote_calls
    (Embedding.embed_twice Embedding.sample_env
       ([bye] ++ Embedding.sample_record :: [later]) "hello").2 = 0%nat /\
  Embedding.embed_twice Embedding.sample_env [bye] "hello" =
    (Embedding.Returned (Some [1; 2; 3]), Embedding.Returned (Some [1; 2; 3]),
     [Embedding.CacheLookup "hello"; Embedding.RemoteCall "hello";
      Embedding.CacheLookup "hello"; Embedding.RemoteCall "hello"]) /\
  Embedding.remote_calls
    (Embedding.embed_twice Embedding.sample_env [bye] "hello").2 = 2%nat.
Proof.
  cbv zeta.
  apply (embed_twice_cache Embedding.sample_env
           [ {| id := "m0"; text := "bye"; attachments := None;
                embedding := Some [4; 5; 6]; createdAt := Some 0 |} ]
           [ {| id := "m2"; text := "hello"; attachments := None;
                embedding := Some [0; 0; 0]; createdAt := Some 0 |} ]
           [ {| id := "m0"; text := "bye"; attachments := None;
                embedding := Some [4; 5; 6]; createdAt := Some 0 |} ]
           Embedding.sample_record [7; 8; 9] "hello").
  - reflexivity.
  - intros m [<- | []]. simpl. discriminate.
  - reflexivity.
  - reflexivity.
  - intros m [<- | []]. simpl. discriminate.
Defined.

(** ** Action resolution *)

Module DispatcherFacts.
Import Dispatcher.

Lemma find_skip {A : Type} (f : A -> bool) (before : list A) (rest : list A) :
  (forall b, In b before -> f b = false) ->
  List.find f (before ++ rest) = List.find f rest.
Proof.
  induction before as [| b before IH]; intros Hno; simpl; [reflexivity |].
  rewrite (Hno b) by (left; reflexivity).
  apply IH. intros b' Hb'. apply Hno. right. exact Hb'.
Qed.

Lemma find_none {A : Type} (f : A -> bool) (l : list A) :
  (forall b, In b l -> f b = false) -> List.find f l = None.
Proof.
  intros Hno. rewrite <- (app_nil_r l). rewrite find_skip by assumption.
  reflexivity.
Qed.

Lemma find_by_simile_none (actions : list Action) (n : string) :
  (forall b, In b actions ->
     forall s, In s (similes b) -> matches n s = false) ->
  find_by_simile actions n = None.
Proof.
  induction actions as [| a rest IH]; intros Hno; simpl; [reflexivity |].
  rewrite find_none.
  - apply IH. intros b Hb. apply Hno. right. exact Hb.
  - apply Hno. left. reflexivity.
Qed.

(** The first registered action whose name matches is the one resolved. *)
Lemma resolve_first_name_match (before after : list Action) (a : Action)
    (chosen : string) :
  (forall b, In b before -> matches (normalize chosen) (name b) = false) ->
  matches (normalize chosen) (name a) = true ->
  resolve (before ++ a :: after) chosen = Some a.
Proof.
  intros Hbefore Ha. unfold resolve, find_by_name.
  rewrite (find_skip (fun x => matches (normalize chosen) (name x)))
    by assumption.
  simpl. rewrite Ha. reflexivity.
Qed.

Lemma resolve_no_match (actions : list Action) (chosen : string) :
  (forall b, In b actions ->
     matches (normalize chosen) (name b) = false /\
     forall s, In s (similes b) -> matches (normalize chosen) s = false) ->
  resolve actions chosen = None.
Proof.
  intros Hno. unfold resolve, find_by_name.
  rewrite (find_none (fun x => matches (normalize chosen) (name x))).
  - apply find_by_simile_none. intros b Hb. exact (proj2 (Hno b Hb)).
  - intros b Hb. exact (proj1 (Hno b Hb)).
Qed.

(** A simile is consulted when no name matches. *)
Example resolve_by_simile :
  resolve [ {| name := "JOIN"; similes := ["follow"]; handler := Some 3%nat |} ]
    "follow_room"
  = Some {| name := "JOIN"; similes := ["follow"]; handler := Some 3%nat |}.
Proof. reflexivity. Qed.

(** [replace] with a string pattern strips the first separator only. *)
Example normalize_first_separator :
  normalize "follow_room" = "followroom"%string /\
  normalize "unknown_action_xyz" = "unknownaction_xyz"%string.
Proof. split; reflexivity. Qed.

(** The predicate of [find]: containment one way or the other. *)
Lemma matches_true (n candidate : string) :
  matches n candidate = true <->
  JS.includes (normalize candidate) n = true \/
  JS.includes n (normalize candidate) = true.
Proof. unfold matches. apply orb_true_iff. Qed.

Lemma matches_false (n candidate : string) :
  ~ (JS.includes (normalize candidate) n = true \/
     JS.includes n (normalize candidate) = true) ->
  matches n candidate = false.
Proof.
  intros H. apply not_true_iff_false. intros Hm. by apply H, matches_true.
Qed.

Lemma find_by_simile_skip (before rest : list Action) (n : string) :
  (forall b, In b before ->
     forall s, In s (similes b) -> matches n s = false) ->
  find_by_simile (before ++ rest) n = find_by_simile rest n.
Proof.
  induction before as [| b before IH]; intros Hno; simpl; [reflexivity |].
  rewrite (find_none (matches n) (similes b)) by (apply Hno; by left).
  apply IH. intros b' Hb'. apply Hno. by right.
Qed.

(** The run on a first response that names an action. *)
Lemma processActions_chosen (actions : list Action) (chosen : string) :
  chosen <> EmptyString ->
  processActions actions [ {| action := Some chosen |} ] =
  match resolve actions chosen with
  | None => Done None true
  | Some a =>
      match handler a with
      | None => Done None false
      | Some _ => Done (Some a) false
      end
  end.
Proof.
  intros Hne. unfold processActions. simpl.
  destruct chosen; [congruence | reflexivity].
Qed.

End DispatcherFacts.

(** C8, as stated, fails: with UNFOLLOW_ROOM registered before FOLLOW_ROOM,
    the chosen name "follow_room" resolves to UNFOLLOW_ROOM, whose
    normalized name contains "followroom". *)
Lemma processActions_first_match_shadows :
  In Dispatcher.follow_room [Dispatcher.unfollow_room; Dispatcher.follow_room] /\
  Dispatcher.processActions
    [Dispatcher.unfollow_room; Dispatcher.follow_room]
    [ {| Dispatcher.action := Some "follow_room"%string |} ]
  = Dispatcher.Done (Some Dispatcher.unfollow_room) false /\
  Dispatcher.unfollow_room <> Dispatcher.follow_room.
Proof.
  split; [right; left; reflexivity |].
  split; [reflexivity | discriminate].
Qed.

(** C8, amended.  Resolution is fuzzy and the first match wins.  The chosen
    name is lowercased and its first underscore removed; the first
    registered action whose name, normalized likewise, contains it or is
    contained in it is selected and its handler called.  If no name matches,
    the first action with an alias that matches in the same two-way sense is
    selected, its first matching alias being non-empty.  So an action named
    FOLLOW_ROOM is resolved from the chosen name "follow_room" when no
    action registered before it matches by name; and the chosen name
    "unknown_action_xyz", matched by no name and no alias, causes no handler
    call and no error, only the warning. *)
Theorem processActions_resolution
    (before after : list Dispatcher.Action) (a : Dispatcher.Action) (h : nat)
    (chosen : string)
    (beforeF afterF : list Dispatcher.Action) (f : Dispatcher.Action) (hF : nat)
    (beforeA afterA : list Dispatcher.Action) (byAlias : Dispatcher.Action)
    (hA : nat) (chosenA : string) (tried later : list string) (simile : string)
    (actions : list Dispatcher.Action) :
  let contains := fun n candidate : string =>
    JS.includes (Dispatcher.normalize candidate) n = true \/
    JS.includes n (Dispatcher.normalize candidate) = true in
  (* by name, in either direction *)
  chosen <> EmptyString ->
  Dispatcher.handler a = Some h ->
  contains (Dispatcher.normalize chosen) (Dispatcher.name a) ->
  (forall b, In b before ->
     ~ contains (Dispatcher.normalize chosen) (Dispatcher.name b)) ->
  (* FOLLOW_ROOM from follow_room *)
  Dispatcher.name f = "FOLLOW_ROOM"%string ->
  Dispatcher.handler f = Some hF ->
  (forall b, In b beforeF -> ~ contains "followroom"%string (Dispatcher.name b)) ->
  (* by alias, when no name matches *)
  chosenA <> EmptyString ->
  Dispatcher.handler byAlias = Some hA ->
  (forall b, In b (beforeA ++ byAlias :: afterA) ->
     ~ contains (Dispatcher.normalize chosenA) (Dispatcher.name b)) ->
  (forall b, In b beforeA -> forall s, In s (Dispatcher.similes b) ->
     ~ contains (Dispatcher.normalize chosenA) s) ->
  Dispatcher.similes byAlias = tried ++ simile :: later ->
  (forall s, In s tried -> ~ contains (Dispatcher.normalize chosenA) s) ->
  simile <> EmptyString ->
  contains (Dispatcher.normalize chosenA) simile ->
  (* no match *)
  (forall b, In b actions ->
     ~ contains "unknownaction_xyz"%string (Dispatcher.name b) /\
     forall s, In s (Dispatcher.similes b) ->
       ~ contains "unknownaction_xyz"%string s) ->
  Dispatcher.processActions (before ++ a :: after)
    [ {| Dispatcher.action := Some chosen |} ]
  = Dispatcher.Done (Some a) false /\
  Dispatcher.processActions (beforeF ++ f :: afterF)
    [ {| Dispatcher.action := Some "follow_room"%string |} ]
  = Dispatcher.Done (Some f) false /\
  Dispatcher.processActions (beforeA ++ byAlias :: afterA)
    [ {| Dispatcher.action := Some chosenA |} ]
  = Dispatcher.Done (Some byAlias) false /\
  Dispatcher.processActions actions
    [ {| Dispatcher.action := Some "unknown_action_xyz"%string |} ]
  = Dispatcher.Done None true.
Proof.
  cbv zeta.
  intros Hchosen Hh Ha Hbefore HnameF HhF HbeforeF
         HchosenA HhA HnamesA HbeforeA Hsimiles Htried Hsimile HsimileM Hnone.
  split; [| split; [| split]].
  - rewrite DispatcherFacts.processActions_chosen by exact Hchosen.
    rewrite (DispatcherFacts.resolve_first_name_match before after a chosen).
    + by rewrite Hh.
    + intros b Hb. apply DispatcherFacts.matches_false, Hbefore, Hb.
    + by apply DispatcherFacts.matches_true.
  - rewrite DispatcherFacts.processActions_chosen by discriminate.
    rewrite (DispatcherFacts.resolve_first_name_match beforeF afterF f "follow_room").
    + by rewrite HhF.
    + intros b Hb. apply DispatcherFacts.matches_false, HbeforeF, Hb.
    + rewrite HnameF. reflexivity.
  - rewrite DispatcherFacts.processActions_chosen by exact HchosenA.
    unfold Dispatcher.resolve, Dispatcher.find_by_name.
    rewrite (DispatcherFacts.find_none
               (fun x => Dispatcher.matches (Dispatcher.normalize chosenA)
                           (Dispatcher.name x)))
      by (intros b Hb; apply DispatcherFacts.matches_false, HnamesA, Hb).
    rewrite DispatcherFacts.find_by_simile_skip
      by (intros b Hb s Hs; apply DispatcherFacts.matches_false; by apply HbeforeA with b).
    simpl. rewrite Hsimiles.
    rewrite (DispatcherFacts.find_skip
               (Dispatcher.matches (Dispatcher.normalize chosenA)))
      by (intros s Hs; apply DispatcherFacts.matches_false, Htried, Hs).
    simpl.
    rewrite (proj2 (DispatcherFacts.matches_true _ _) HsimileM).
    destruct simile; [congruence |]. simpl. by rewrite HhA.
  - rewrite DispatcherFacts.processActions_chosen by discriminate.
    rewrite (DispatcherFacts.resolve_no_match actions "unknown_action_xyz");
      [reflexivity |].
    intros b Hb. destruct (Hnone b Hb) as [Hn Hs]. split.
    + by apply DispatcherFacts.matches_false.
    + intros s Hin. by apply DispatcherFacts.matches_false, Hs.
Qed.

Lemma processActions_resolution_witness :
  Dispatcher.processActions
    ([Dispatcher.mute_room] ++ Dispatcher.follow_room :: [Dispatcher.unfollow_room])
    [ {| Dispatcher.action := Some "Follow"%string |} ]
  = Dispatcher.Done (Some Dispatcher.follow_room) false /\
  Dispatcher.processActions
    ([Dispatcher.mute_room] ++ Dispatcher.follow_room :: [Dispatcher.unfollow_room])
    [ {| Dispatcher.action := Some "follow_room"%string |} ]
  = Dispatcher.Done (Some Dispatcher.follow_room) false /\
  Dispatcher.processActions
    ([Dispatcher.mute_room] ++ Dispatcher.join_voice :: [])
    [ {| Dispatcher.action := Some "follow_room"%string |} ]
  = Dispatcher.Done (Some Dispatcher.join_voice) false /\
  Dispatcher.processActions
    [Dispatcher.mute_room; Dispatcher.follow_room; Dispatcher.unfollow_room]
    [ {| Dispatcher.action := Some "unknown_action_xyz"%string |} ]
  = Dispatcher.Done None true.
Proof.
  apply (processActions_resolution
           [Dispatcher.mute_room] [Dispatcher.unfollow_room]
           Dispatcher.follow_room 1%nat "Follow"
           [Dispatcher.mute_room] [Dispatcher.unfollow_room]
           Dispatcher.follow_room 1%nat
           [Dispatcher.mute_room] [] Dispatcher.join_voice 5%nat "follow_room"
           ["enter"%string] [] "follow"
           [Dispatcher.mute_room; Dispatcher.follow_room; Dispatcher.unfollow_room]).
  - discriminate.
  - reflexivity.
  - left. reflexivity.
  - intros b [<- | []] [H | H]; vm_compute in H; discriminate.
  - reflexivity.
  - reflexivity.
  - intros b [<- | []] [H | H]; vm_compute in H; discriminate.
  - discriminate.
  - reflexivity.
  - intros b [<- | [<- | []]] [H | H]; vm_compute in H; discriminate.
  - intros b [<- | []] s [<- | []] [H | H]; vm_compute in H; discriminate.
  - reflexivity.
  - intros s [<- | []] [H | H]; vm_compute in H; discriminate.
  - discriminate.
  - right. reflexivity.
  - intros b [<- | [<- | [<- | []]]]; (split; [| intros s [<- | []]]);
      intros [H | H]; vm_compute in H; discriminate.
Defined.

(** The two directions of the containment are both needed: the name
    contains the chosen name in the first run, the chosen name contains
    the alias in the second. *)
Example containment_one_way_each :
  JS.includes (Dispatcher.normalize "FOLLOW_ROOM") (Dispatcher.normalize "Follow")
    = true /\
  JS.includes (Dispatcher.normalize "Follow") (Dispatcher.normalize "FOLLOW_ROOM")
    = false /\
  JS.includes (Dispatcher.normalize "follow") (Dispatcher.normalize "follow_room")
    = false /\
  JS.includes (Dispatcher.normalize "follow_room") (Dispatcher.normalize "follow")
    = true.
Proof. repeat split; reflexivity. Qed.

(** ** Evaluators *)

Module EvaluationFacts.
Import Evaluation.

Section Evaluate.

Context {Message State : Type}.
Variable llm : option State -> list (Evaluator Message State) -> llm_result.
Variable evaluators : list (Evaluator Message State).
Variable message : Message.
Variable state : option State.

(** Only evaluators that have a handler and passed [validate] are
    offered to the model. *)
Lemma evaluate_offered_validated (l : list (Evaluator Message State)) :
  offered (evaluate llm evaluators message state) = Some l ->
  forall e, In e l <->
    In e evaluators /\ has_handler e = true /\ validate e message state = true.
Proof.
  unfold evaluate.
  set (data := List.filter _ evaluators).
  assert (Hdata : forall e, In e data <->
            In e evaluators /\ has_handler e = true
            /\ validate e message state = true).
  { intros e. unfold data. rewrite filter_In, andb_true_iff. tauto. }
  destruct (length data =? 0)%nat; simpl; [discriminate |].
  destruct (llm state data); simpl; intros [= <-]; exact Hdata.
Qed.

(** Once the model has answered, the handlers run are those of the
    registered evaluators it named: validation plays no part. *)
Lemma evaluate_executed_named (l : list (Evaluator Message State))
    (parsedResult : option (list string)) :
  offered (evaluate llm evaluators message state) = Some l ->
  llm state l = Parsed parsedResult ->
  forall e, In e (executed (evaluate llm evaluators message state)) <->
    In e evaluators /\ named parsedResult (name e) = true
    /\ has_handler e = true.
Proof.
  unfold evaluate.
  set (data := List.filter _ evaluators).
  destruct (length data =? 0)%nat; simpl; [discriminate |].
  destruct (llm state data) eqn:Hllm; simpl; intros [= <-] Hparsed e.
  - rewrite Hllm in Hparsed. discriminate.
  - rewrite Hllm in Hparsed. injection Hparsed as ->.
    rewrite !filter_In. tauto.
Qed.

End Evaluate.

End EvaluationFacts.

(** C2.  The claim: an evaluator that failed validation never executes, even
    if the model names it.  With the evaluators FACT (validates) and GOAL
    (does not) registered, only FACT is offered; the model answers
    ["GOAL"], and the handler of GOAL is the one called. *)
Theorem evaluate_runs_rejected_at_input :
  let r := Evaluation.evaluate Evaluation.names_rejected
             [Evaluation.validated; Evaluation.rejected] tt None in
  Evaluation.validate Evaluation.rejected tt None = false /\
  Evaluation.offered r = Some [Evaluation.validated] /\
  Evaluation.executed r = [Evaluation.rejected] /\
  Evaluation.returned r = Some (Some ["GOAL"%string]).
Proof. repeat split; reflexivity. Qed.

(** ** Recent and relevant facts *)

Module FactsFacts.
Import Composer.

Lemma ceil_half_nonneg (n : Z) : 0 <= n -> 0 <= JS.ceil_half n.
Proof. intros Hn. unfold JS.ceil_half. apply Z.div_pos; lia. Qed.

(** [ceil_half] is the ceiling of the half. *)
Lemma ceil_half_spec (n : Z) : 2 * JS.ceil_half n = n \/ 2 * JS.ceil_half n = n + 1.
Proof.
  unfold JS.ceil_half.
  pose proof (Z.div_mod (n + 1) 2 ltac:(lia)) as Hdm.
  pose proof (Z.mod_pos_bound (n + 1) 2 ltac:(lia)) as Hb.
  lia.
Qed.

(** On a store that honours [count] the guard [length > recentFactsCount]
    never holds: no search is issued and no relevant fact is produced,
    whatever the page. *)
Lemma composeState_facts_never_searches (conversationLength : Z)
    (fm : FactManager) (roomId : string) :
  honours_count fm -> 0 <= conversationLength ->
  composeState_facts conversationLength fm roomId =
  Facts (getMemories fm roomId (JS.ceil_half conversationLength)) [] [].
Proof.
  intros Hfm Hlen. unfold composeState_facts.
  pose proof (Hfm roomId (JS.ceil_half conversationLength)
                (ceil_half_nonneg _ Hlen)) as Hpage.
  destruct (Z.gtb_spec
              (Z.of_nat (length (getMemories fm roomId
                                   (JS.ceil_half conversationLength))))
              (JS.ceil_half conversationLength)); [lia | reflexivity].
Qed.

Lemma sample_facts_honours_count : honours_count sample_facts.
Proof.
  intros roomId count Hcount. simpl. rewrite length_take. simpl. lia.
Qed.

End FactsFacts.

(** C3.  The claim: on a full page of recent facts a similarity search is
    issued and its result, less the recent facts, is the list of relevant
    facts.  With a conversation length of 4 the page size is 2; the store
    holds three facts and returns the full page [f1; f2]; the search by the
    embedding of f1 would return [f1; f3], leaving f3.  The code issues no
    search and the relevant facts are empty. *)
Theorem composeState_facts_full_page_at_input :
  let page := Composer.getMemories Composer.sample_facts "room" (JS.ceil_half 4) in
  JS.ceil_half 4 = 2 /\
  Z.of_nat (length page) = JS.ceil_half 4 /\
  Composer.composeState_facts 4 Composer.sample_facts "room" =
    Composer.Facts page [] [] /\
  List.filter (fun f => negb (Composer.is_recent page f))
    (Composer.searchMemoriesByEmbedding Composer.sample_facts
       (head page ≫= embedding) "room" (JS.ceil_half 4))
  = [Composer.fact "f3" [1; 0] 10].
Proof. repeat split; reflexivity. Qed.

(** ** Attachment redaction *)

Module AttachmentFacts.
Import Composer.

Lemma hide_idempotent (m : Media) : hide (hide m) = hide m.
Proof. reflexivity. Qed.

Lemma hide_text (m : Media) : media_text (hide m) = hidden_marker.
Proof. reflexivity. Qed.

Lemma fmap_hide_idempotent (o : option Media) : hide <$> (hide <$> o) = hide <$> o.
Proof. by destruct o. Qed.

(** The objects after [attachments.forEach(a => a.text = "[Hidden]")]. *)
Lemma foldl_hide_lookup (atts : list loc) (h : gmap loc Media) (a : loc) :
  foldl (fun h a => alter hide a h) h atts !! a =
  if bool_decide (a ∈ atts) then hide <$> h !! a else h !! a.
Proof.
  revert h. induction atts as [| x atts IH]; intros h; simpl; [done |].
  rewrite IH, lookup_alter.
  destruct (decide (x = a)) as [-> | Hne].
  - rewrite (bool_decide_eq_true_2 (a ∈ a :: atts)) by (apply elem_of_cons; left; reflexivity).
    rewrite fmap_hide_idempotent. by case_bool_decide.
  - apply (f_equal (fun b : bool => if b then hide <$> h !! a else h !! a)).
    apply bool_decide_ext. rewrite elem_of_cons.
    split; [intros Hin; right; exact Hin
           | intros [Heq | Hin]; [congruence | exact Hin]].
Qed.

Lemma redact_message_lookup (now : Z) (bound : option Z) (h : gmap loc Media)
    (msg : Memory) (a : loc) :
  redact_message now bound h msg !! a =
  if hides now bound a msg then hide <$> h !! a else h !! a.
Proof.
  unfold redact_message, hides.
  destruct (isWithinTime now bound msg); simpl; [done |].
  apply foldl_hide_lookup.
Qed.

(** The objects after the whole [map]: an object is hidden exactly when
    some visited message out of the time window refers to it, and is
    otherwise as before. *)
Lemma foldl_redact_lookup (now : Z) (bound : option Z) (msgs : list Memory)
    (h : gmap loc Media) (a : loc) :
  foldl (redact_message now bound) h msgs !! a =
  if existsb (hides now bound a) msgs then hide <$> h !! a else h !! a.
Proof.
  revert h. induction msgs as [| msg msgs IH]; intros h; simpl; [done |].
  rewrite IH, redact_message_lookup.
  destruct (hides now bound a msg); simpl.
  - rewrite fmap_hide_idempotent. by destruct (existsb _ msgs).
  - done.
Qed.



End AttachmentFacts.

(** ** Merging into the state *)

Module MergeFacts.
Import Composer.

Lemma object_literal_lookup_in (keys : list string) (computed : string -> jsval)
    (k : string) :
  k ∈ keys -> object_literal keys computed !! k = Some (computed k).
Proof.
  unfold object_literal.
  induction keys as [| k0 keys IH]; simpl; intros Hin.
  - by apply elem_of_nil in Hin.
  - rewrite lookup_insert. destruct (decide (k0 = k)) as [-> | Hne]; [done |].
    apply IH. apply elem_of_cons in Hin as [-> | Hin]; [done | exact Hin].
Qed.

Lemma object_literal_lookup_notin (keys : list string)
    (computed : string -> jsval) (k : string) :
  k ∉ keys -> object_literal keys computed !! k = None.
Proof.
  unfold object_literal.
  induction keys as [| k0 keys IH]; simpl; intros Hnin; [done |].
  apply not_elem_of_cons in Hnin as [Hne Hnin].
  rewrite lookup_insert_ne by congruence. by apply IH.
Qed.

(** In [{ ...base, ...over }] a key of [over] holds the value of [over]. *)
Lemma spread_lookup_over (base over : gmap string jsval) (k : string) (v : jsval) :
  over !! k = Some v -> spread base over !! k = Some v.
Proof. intros H. unfold spread. by apply lookup_union_Some_l. Qed.

Lemma spread_lookup_base (base over : gmap string jsval) (k : string) :
  over !! k = None -> spread base over !! k = base !! k.
Proof. intros H. unfold spread. by apply lookup_union_r. Qed.

(** The fields of [actionState] are merged last and hold their computed
    values, whatever the caller passed. *)
Lemma composeState_merge_catalog (computed : string -> jsval)
    (cat : gmap string jsval -> string -> jsval)
    (additionalKeys : gmap string jsval) (k : string) :
  k ∈ action_keys ->
  composeState_merge computed cat additionalKeys !! k =
  Some (cat (initialState computed additionalKeys) k).
Proof.
  intros Hin. unfold composeState_merge.
  apply spread_lookup_over. by apply object_literal_lookup_in.
Qed.

(** Elsewhere the caller's value wins over the computed field. *)
Lemma composeState_merge_additional (computed : string -> jsval)
    (cat : gmap string jsval -> string -> jsval)
    (additionalKeys : gmap string jsval) (k : string) (v : jsval) :
  k ∉ action_keys ->
  additionalKeys !! k = Some v ->
  composeState_merge computed cat additionalKeys !! k = Some v.
Proof.
  intros Hnin Hk. unfold composeState_merge.
  rewrite spread_lookup_base by by apply object_literal_lookup_notin.
  unfold initialState. by apply spread_lookup_over.
Qed.


(** [composeState] returns unless the facts step throws, which a store
    honouring [count] rules out. *)
Lemma composeState_returns (inp : Inputs) (h : gmap loc Media) (message : Memory)
    (roomId : string) (additionalKeys : gmap string jsval) :
  honours_count (factManager inp) -> 0 <= conversationLength inp ->
  is_Some (composeState inp h message roomId additionalKeys).
Proof.
  intros Hfm Hlen. unfold composeState.
  rewrite FactsFacts.composeState_facts_never_searches by assumption.
  eauto.
Qed.

End MergeFacts.

(** C4, as stated, fails: a caller passing the key "actions" does not find
    its value in the returned state, which holds the computed catalog. *)
Lemma composeState_catalog_overrides_caller :
  match Composer.composeState Composer.sample_inputs Composer.sample_heap
          (Composer.post "m0" None 10000000) "room"
          {[ "actions"%string := Composer.JStr "mine" ]} with
  | Some c =>
      Composer.state c !! "actions"%string = Some (Composer.JStr "computed actions") /\
      Composer.state c !! "actions"%string <> Some (Composer.JStr "mine")
  | None => False
  end.
Proof. vm_compute. split; [reflexivity | discriminate]. Qed.

(** C4, amended.  Every key of [additionalKeys] other than the eight fields
    of [actionState] (actionNames, actions, actionExamples, evaluatorsData,
    evaluators, evaluatorNames, evaluatorExamples, providers) appears in the
    returned state with the caller's value, also when it collides with a
    computed field of [initialState].  For those eight the returned state
    holds the value computed from an [initialState] in which the caller's
    value stood. *)
Theorem composeState_additionalKeys (inp : Composer.Inputs)
    (h : gmap loc Media) (message : Memory) (roomId : string)
    (additionalKeys : gmap string Composer.jsval) (c : Composer.composed)
    (k : string) (v : Composer.jsval) :
  Composer.composeState inp h message roomId additionalKeys = Some c ->
  additionalKeys !! k = Some v ->
  (k ∉ Composer.action_keys -> Composer.state c !! k = Some v) /\
  (k ∈ Composer.action_keys ->
   exists initial : gmap string Composer.jsval,
     initial !! k = Some v /\
     Composer.state c !! k = Some (Composer.catalog inp initial k)).
Proof.
  unfold Composer.composeState. intros Hrun Hk.
  destruct (Composer.composeState_facts _ _ _) as [| recent relevant searches];
    [discriminate |].
  injection Hrun as <-. simpl. split.
  - intros Hnin. by apply MergeFacts.composeState_merge_additional.
  - intros Hin. eexists. split; [| by apply MergeFacts.composeState_merge_catalog].
    unfold Composer.initialState. by apply MergeFacts.spread_lookup_over.
Qed.

Lemma composeState_additionalKeys_witness :
  match Composer.composeState Composer.sample_inputs Composer.sample_heap
          (Composer.post "m0" None 10000000) "room"
          {[ "bio"%string := Composer.JStr "mine" ]} with
  | Some c => Composer.state c !! "bio"%string = Some (Composer.JStr "mine")
  | None => False
  end.
Proof.
  destruct (Composer.composeState Composer.sample_inputs Composer.sample_heap
              (Composer.post "m0" None 10000000) "room"
              {[ "bio"%string := Composer.JStr "mine" ]}) as [c |] eqn:Hrun.
  - apply (composeState_additionalKeys _ _ _ _ _ c "bio" (Composer.JStr "mine") Hrun).
    + reflexivity.
    + apply (bool_decide_unpack _). vm_compute. exact I.
  - vm_compute in Hrun. discriminate.
Defined.



(** The sample room, computed: the page comes back reversed, the two stale
    attachments are hidden and the recent one is intact. *)
Example composeState_sample_room :
  match Composer.composeState Composer.sample_inputs Composer.sample_heap
          (Composer.post "m0" None 10000000) "room" ∅ with
  | Some c =>
      Composer.state c !! "recentMessagesData"%string
        = Some (Composer.JMemories (rev Composer.sample_page)) /\
      media_text <$> Composer.attachment_objects c !! 1%positive = Some "photo"%string /\
      media_text <$> Composer.attachment_objects c !! 2%positive = Some "[Hidden]"%string /\
      media_text <$> Composer.attachment_objects c !! 3%positive = Some "[Hidden]"%string
  | None => False
  end.
Proof. vm_compute. repeat split. Qed.

(** * Further properties *)

(** ** Settings lookup *)

(** X1. [getSetting] answers with the first truthy value among the
    character's secrets, the character's settings and the imported
    settings, in that order; it answers null exactly when none of the
    three holds a truthy value, so that an empty or zero setting counts as
    missing, and it never answers with a falsy value other than null. *)
Theorem getSetting_first_truthy (characterSettings settings : Settings.sval)
    (key : string) :
  let secret := Settings.get (Settings.get characterSettings "secrets") key in
  let own := Settings.get characterSettings key in
  let env := Settings.get settings key in
  let r := Settings.getSetting characterSettings settings key in
  (Settings.truthy secret = true -> r = secret) /\
  (Settings.truthy secret = false -> Settings.truthy own = true -> r = own) /\
  (Settings.truthy secret = false -> Settings.truthy own = false ->
   Settings.truthy env = true -> r = env) /\
  (r = Settings.SNull <->
   Settings.truthy secret = false /\ Settings.truthy own = false
   /\ Settings.truthy env = false) /\
  (r <> Settings.SNull -> Settings.truthy r = true).
Proof.
  cbv zeta. unfold Settings.getSetting.
  destruct (Settings.truthy (Settings.get (Settings.get characterSettings "secrets") key))
    eqn:Hs;
  destruct (Settings.truthy (Settings.get characterSettings key)) eqn:Ho;
  destruct (Settings.truthy (Settings.get settings key)) eqn:He;
  repeat split; try congruence; try tauto;
    try (intros Hnull; rewrite Hnull in *; simpl in *; discriminate);
    try (intros (? & ? & ?); discriminate);
    match goal with
    | H : _ = Settings.SNull |- _ => rewrite H in *; simpl in *; discriminate
    end.
Qed.

(** ** Accounts, rooms and participants *)

Module AccountsFacts.
Import Accounts.

Lemma or_else_truthy (a : optstr) (b : string) :
  JS.truthy_string b = true -> JS.truthy_string (or_else a b) = true.
Proof.
  intros Hb. destruct a as [| | s]; simpl; try exact Hb.
  destruct (JS.truthy_string s) eqn:Hs; [exact Hs | exact Hb].
Qed.

Lemma truthy_nonempty (s : string) :
  JS.truthy_string s = true <-> s <> EmptyString.
Proof.
  unfold JS.truthy_string. rewrite negb_true_iff.
  split.
  - intros H ->. discriminate.
  - intros H. destruct s; [congruence | reflexivity].
Qed.

Lemma has_at_app (a b : string) : has_at (a ++ "@" ++ b) = true.
Proof. induction a as [| c a IH]; simpl; [reflexivity |]. rewrite IH. apply orb_true_r. Qed.

Lemma has_at_truthy (s : string) : has_at s = true -> JS.truthy_string s = true.
Proof. destruct s; [discriminate | reflexivity]. Qed.

Lemma in_memory_reads_own_writes : reads_own_writes in_memory.
Proof.
  repeat split.
  - intros db a. simpl. rewrite String.eqb_refl. eauto.
  - intros db r. simpl. rewrite String.eqb_refl. eauto.
  - intros db u r. simpl. rewrite !String.eqb_refl. simpl.
    rewrite String.eqb_refl. reflexivity.
Qed.

End AccountsFacts.

(** X2. The account created by [ensureUserExists] for an unknown user has
    a non-empty name, username and email.  When no email is given the email
    is the user name (or "Bot") followed by "@" and the source, so the
    fallback "Unknown" is never used: the email is "Unknown" only if the
    caller passed that very string. *)
Theorem ensureUserExists_new_account {DB : Type}
    (adapter : Accounts.DatabaseAdapter DB) (db : DB) (userId : string)
    (userName name email source : Accounts.optstr) :
  Accounts.getAccountById adapter db userId = None ->
  exists a,
    Accounts.ensureUserExists adapter db userId userName name email source
      = (Accounts.createAccount adapter db a, [Accounts.CreateAccount a]) /\
    Accounts.account_id a = userId /\
    Accounts.account_name a <> EmptyString /\
    Accounts.account_username a <> EmptyString /\
    Accounts.account_email a <> EmptyString /\
    (Accounts.or_opt email Accounts.Null = Accounts.Null ->
     Accounts.account_email a =
       (Accounts.or_else userName "Bot" ++ "@" ++ Accounts.to_string source)%string) /\
    (Accounts.account_email a = "Unknown"%string -> email = Accounts.Str "Unknown").
Proof.
  intros Hnone. eexists. unfold Accounts.ensureUserExists. rewrite Hnone.
  split; [reflexivity |]. simpl.
  split; [reflexivity |].
  split; [apply AccountsFacts.truthy_nonempty, AccountsFacts.or_else_truthy; reflexivity |].
  split; [apply AccountsFacts.truthy_nonempty, AccountsFacts.or_else_truthy; reflexivity |].
  split; [apply AccountsFacts.truthy_nonempty, AccountsFacts.or_else_truthy; reflexivity |].
  pose proof (AccountsFacts.has_at_app (Accounts.or_else userName "Bot")
                (Accounts.to_string source)) as Hat.
  pose proof (AccountsFacts.has_at_truthy _ Hat) as Htr.
  split.
  - destruct email as [| | e]; simpl; try (intros _; rewrite Htr; reflexivity).
    destruct (JS.truthy_string e) eqn:He; [discriminate |].
    simpl. intros _. rewrite Htr. reflexivity.
  - destruct email as [| | e]; simpl.
    + rewrite Htr. intros Heq. rewrite Heq in Hat. discriminate.
    + rewrite Htr. intros Heq. rewrite Heq in Hat. discriminate.
    + destruct (JS.truthy_string e) eqn:He; simpl.
      * rewrite He. intros ->. reflexivity.
      * rewrite Htr. intros Heq. rewrite Heq in Hat. discriminate.
Qed.

Lemma ensureUserExists_new_account_witness :
  exists a,
    Accounts.ensureUserExists Accounts.in_memory Accounts.empty_tables "u1"
      Accounts.Null (Accounts.Str "") Accounts.Undefined Accounts.Null
      = (Accounts.createAccount Accounts.in_memory Accounts.empty_tables a,
         [Accounts.CreateAccount a]) /\
    Accounts.account_id a = "u1"%string /\
    Accounts.account_name a <> EmptyString /\
    Accounts.account_username a <> EmptyString /\
    Accounts.account_email a <> EmptyString /\
    (Accounts.or_opt Accounts.Undefined Accounts.Null = Accounts.Null ->
     Accounts.account_email a =
       (Accounts.or_else Accounts.Null "Bot" ++ "@"
          ++ Accounts.to_string Accounts.Null)%string) /\
    (Accounts.account_email a = "Unknown"%string ->
     Accounts.Undefined = Accounts.Str "Unknown").
Proof.
  apply (ensureUserExists_new_account Accounts.in_memory Accounts.empty_tables
           "u1" Accounts.Null (Accounts.Str "") Accounts.Undefined Accounts.Null).
  reflexivity.
Defined.

(** X3. On an adapter whose reads see its writes, [ensureUserExists] and
    [ensureRoomExists] create at most once: a second call for the same id
    issues no write and leaves the database as it is, whatever names are
    passed the second time, so an existing account is never overwritten. *)
Theorem ensure_exists_idempotent {DB : Type}
    (adapter : Accounts.DatabaseAdapter DB) (db : DB) (userId roomId : string)
    (userName name email source userName' name' email' source' : Accounts.optstr) :
  Accounts.reads_own_writes adapter ->
  let db1 :=
    (Accounts.ensureUserExists adapter db userId userName name email source).1 in
  let db2 := (Accounts.ensureRoomExists adapter db roomId).1 in
  Accounts.ensureUserExists adapter db1 userId userName' name' email' source'
    = (db1, []) /\
  Accounts.ensureRoomExists adapter db2 roomId = (db2, []).
Proof.
  intros (Hacc & Hroom & _). cbv zeta. split.
  - assert (Hseen : is_Some
              (Accounts.getAccountById adapter
                 (Accounts.ensureUserExists adapter db userId userName name
                    email source).1 userId)).
    { unfold Accounts.ensureUserExists.
      destruct (Accounts.getAccountById adapter db userId) as [a |] eqn:Hget;
        simpl; [rewrite Hget; eauto |].
      apply (Hacc db (Accounts.new_account userId userName name email source)). }
    destruct Hseen as [a Ha].
    revert Ha.
    generalize (Accounts.ensureUserExists adapter db userId userName name
                  email source).1.
    intros db1 Ha. unfold Accounts.ensureUserExists. rewrite Ha. reflexivity.
  - assert (Hseen : is_Some
              (Accounts.getRoom adapter
                 (Accounts.ensureRoomExists adapter db roomId).1 roomId)).
    { unfold Accounts.ensureRoomExists.
      destruct (Accounts.getRoom adapter db roomId) as [r |] eqn:Hget;
        simpl; [rewrite Hget; eauto | apply Hroom]. }
    destruct Hseen as [r Hr].
    revert Hr. generalize (Accounts.ensureRoomExists adapter db roomId).1.
    intros db2 Hr. unfold Accounts.ensureRoomExists. rewrite Hr. reflexivity.
Qed.

Lemma ensure_exists_idempotent_witness :
  let db1 :=
    (Accounts.ensureUserExists Accounts.in_memory Accounts.empty_tables "u1"
       (Accounts.Str "ann") Accounts.Null Accounts.Null (Accounts.Str "discord")).1 in
  let db2 :=
    (Accounts.ensureRoomExists Accounts.in_memory Accounts.empty_tables "r1").1 in
  Accounts.ensureUserExists Accounts.in_memory db1 "u1"
    (Accounts.Str "bob") (Accounts.Str "Bob") Accounts.Null Accounts.Null
    = (db1, []) /\
  Accounts.ensureRoomExists Accounts.in_memory db2 "r1" = (db2, []).
Proof.
  apply (ensure_exists_idempotent Accounts.in_memory Accounts.empty_tables
           "u1" "r1" (Accounts.Str "ann") Accounts.Null Accounts.Null
           (Accounts.Str "discord") (Accounts.Str "bob") (Accounts.Str "Bob")
           Accounts.Null Accounts.Null).
  repeat split.
  - intros db a. simpl. rewrite String.eqb_refl. eauto.
  - intros db r. simpl. rewrite String.eqb_refl. eauto.
  - intros db u r. simpl. rewrite !String.eqb_refl. simpl.
    rewrite String.eqb_refl. reflexivity.
Defined.

(** X4. On such an adapter, after [ensureParticipantInRoom] the user is
    among the participants of the room, and a second call issues no
    write. *)
Theorem ensureParticipantInRoom_joins {DB : Type}
    (adapter : Accounts.DatabaseAdapter DB) (db : DB) (userId roomId : string) :
  Accounts.reads_own_writes adapter ->
  let db1 := (Accounts.ensureParticipantInRoom adapter db userId roomId).1 in
  Accounts.includes_user (Accounts.getParticipantsForRoom adapter db1 roomId) userId
    = true /\
  Accounts.ensureParticipantInRoom adapter db1 userId roomId = (db1, []).
Proof.
  intros (_ & _ & Hpart). cbv zeta.
  assert (Hin : Accounts.includes_user
                  (Accounts.getParticipantsForRoom adapter
                     (Accounts.ensureParticipantInRoom adapter db userId roomId).1
                     roomId) userId = true).
  { unfold Accounts.ensureParticipantInRoom.
    destruct (Accounts.includes_user
                (Accounts.getParticipantsForRoom adapter db roomId) userId)
      eqn:Hinc; simpl; [exact Hinc | apply Hpart]. }
  split; [exact Hin |].
  revert Hin.
  generalize (Accounts.ensureParticipantInRoom adapter db userId roomId).1.
  intros db1 Hin. unfold Accounts.ensureParticipantInRoom. rewrite Hin. reflexivity.
Qed.

Lemma ensureParticipantInRoom_joins_witness :
  let db1 :=
    (Accounts.ensureParticipantInRoom Accounts.in_memory Accounts.empty_tables
       "u1" "r1").1 in
  Accounts.includes_user
    (Accounts.getParticipantsForRoom Accounts.in_memory db1 "r1") "u1" = true /\
  Accounts.ensureParticipantInRoom Accounts.in_memory db1 "u1" "r1" = (db1, []).
Proof.
  apply (ensureParticipantInRoom_joins Accounts.in_memory Accounts.empty_tables
           "u1" "r1").
  repeat split.
  - intros db a. simpl. rewrite String.eqb_refl. eauto.
  - intros db r. simpl. rewrite String.eqb_refl. eauto.
  - intros db u r. simpl. rewrite !String.eqb_refl. simpl.
    rewrite String.eqb_refl. reflexivity.
Defined.

(** X5. [ensureParticipantExists] looks at the rooms of the account, not at
    the room it is given: for a user who already participates somewhere it
    writes nothing, also when the user is not in the given room, where
    [ensureParticipantInRoom] adds the user. *)
Theorem ensureParticipantExists_ignores_room {DB : Type}
    (adapter : Accounts.DatabaseAdapter DB) (db : DB) (userId roomId : string)
    (p : string) (ps : list string) :
  Accounts.getParticipantsForAccount adapter db userId = Some (p :: ps) ->
  Accounts.includes_user (Accounts.getParticipantsForRoom adapter db roomId) userId
    = false ->
  Accounts.ensureParticipantExists adapter db userId roomId = (db, []) /\
  Accounts.includes_user
    (Accounts.getParticipantsForRoom adapter
       (Accounts.ensureParticipantExists adapter db userId roomId).1 roomId) userId
    = false /\
  Accounts.ensureParticipantInRoom adapter db userId roomId
    = (Accounts.addParticipant adapter db userId roomId,
       [Accounts.AddParticipant userId roomId]).
Proof.
  intros Hacc Hroom.
  unfold Accounts.ensureParticipantExists, Accounts.ensureParticipantInRoom.
  rewrite Hacc, Hroom. simpl. rewrite Hroom. repeat split.
Qed.

Lemma ensureParticipantExists_ignores_room_witness :
  let db := Accounts.addParticipant Accounts.in_memory Accounts.empty_tables
              "u1" "r1" in
  Accounts.ensureParticipantExists Accounts.in_memory db "u1" "r2" = (db, []) /\
  Accounts.includes_user
    (Accounts.getParticipantsForRoom Accounts.in_memory
       (Accounts.ensureParticipantExists Accounts.in_memory db "u1" "r2").1 "r2")
    "u1" = false /\
  Accounts.ensureParticipantInRoom Accounts.in_memory db "u1" "r2"
    = (Accounts.addParticipant Accounts.in_memory db "u1" "r2",
       [Accounts.AddParticipant "u1" "r2"]).
Proof.
  apply (ensureParticipantExists_ignores_room Accounts.in_memory
           (Accounts.addParticipant Accounts.in_memory Accounts.empty_tables
              "u1" "r1") "u1" "r2" "r1" []); reflexivity.
Defined.

(** ** Typed completion wrappers *)

Module TypedFacts.
Import Completion TypedCompletion.

Lemma requests_app (a b : list event) :
  requests (a ++ b) = (requests a + requests b)%nat.
Proof. induction a as [| [| ms] a IH]; simpl; lia. Qed.

Lemma sleeps_app (a b : list event) : sleeps (a ++ b) = sleeps a ++ sleeps b.
Proof. induction a as [| [| ms] a IH]; simpl; congruence. Qed.

(** A completion against an endpoint that never answers: five requests and
    the error. *)
Lemma completion_loop_exhausts (service : nat -> outcome) (sent : nat) :
  (forall n, attempt (service n) = None) ->
  exists evs,
    completion_loop service 5 sent 1000 = (Failed exhausted_message, evs) /\
    requests evs = 5%nat.
Proof.
  intros Hfail.
  pose proof (CompletionFacts.loop_all_fail service 5 sent 1000
                (fun j _ => Hfail (sent + j)%nat)) as H.
  destruct (completion_loop service 5 sent 1000) as [r evs].
  destruct H as (-> & Hreq & _). eauto.
Qed.

(** A completion against an endpoint that answers at once. *)
Lemma completion_loop_answers (service : nat -> outcome) (sent : nat)
    (content : string) :
  attempt (service sent) = Some content ->
  completion_loop service 5 sent 1000 = (Returned content, [Request]).
Proof. intros H. simpl. rewrite H. reflexivity. Qed.

Section Wrappers.

Variable service : nat -> outcome.
Context {T : Type}.
Variable parse : string -> option T.

Lemma typedCompletion_loop_runs_on (fuel sent : nat) (retryDelay : Z) :
  (forall n, attempt (service n) = None) ->
  (typedCompletion_loop service parse fuel sent retryDelay).1 = None /\
  requests (typedCompletion_loop service parse fuel sent retryDelay).2
    = (5 * fuel)%nat.
Proof.
  intros Hfail. revert sent retryDelay.
  induction fuel as [| fuel IH]; intros sent d; [split; reflexivity |].
  cbn [typedCompletion_loop].
  destruct (completion_loop_exhausts service sent Hfail) as (evs & -> & Hreq).
  specialize (IH (sent + requests evs)%nat (d * 2)).
  destruct (typedCompletion_loop service parse fuel _ _) as [res evs'].
  simpl in *. destruct IH as [-> Hreq'].
  split; [reflexivity |].
  rewrite requests_app. simpl. lia.
Qed.

Lemma messageCompletion_loop_runs_on (fuel sent : nat) (retryLength : Z) :
  (forall n, attempt (service n) = None) ->
  (messageCompletion_loop service parse fuel sent retryLength).1 = None /\
  requests (messageCompletion_loop service parse fuel sent retryLength).2
    = (5 * fuel)%nat.
Proof.
  intros Hfail. revert sent retryLength.
  induction fuel as [| fuel IH]; intros sent d; [split; reflexivity |].
  cbn [messageCompletion_loop].
  destruct (completion_loop_exhausts service sent Hfail) as (evs & -> & Hreq).
  specialize (IH (sent + requests evs)%nat (d * 2)).
  destruct (messageCompletion_loop service parse fuel _ _) as [res evs'].
  simpl in *. destruct IH as [-> Hreq'].
  split; [reflexivity |].
  rewrite requests_app. simpl. lia.
Qed.

Variable answer : nat -> string.
Hypothesis answers : forall n, attempt (service n) = Some (answer n).

Lemma typedCompletion_loop_first_parse (fuel sent k : nat) (retryDelay : Z) (v : T) :
  (k < fuel)%nat ->
  (forall j, (j < k)%nat -> parse (answer (sent + j)) = None) ->
  parse (answer (sent + k)) = Some v ->
  exists evs,
    typedCompletion_loop service parse fuel sent retryDelay = (Some v, evs) /\
    requests evs = S k /\
    sleeps evs = doubling k retryDelay.
Proof.
  revert sent k retryDelay.
  induction fuel as [| fuel IH]; intros sent k d Hk Hnone Hsome; [lia |].
  cbn [typedCompletion_loop].
  rewrite (completion_loop_answers service sent (answer sent) (answers sent)).
  destruct k as [| k].
  - rewrite Nat.add_0_r in Hsome. rewrite Hsome. eexists. repeat split.
  - pose proof (Hnone 0%nat ltac:(lia)) as H0. rewrite Nat.add_0_r in H0.
    rewrite H0. simpl requests.
    destruct (IH (sent + 1)%nat k (d * 2)) as (evs & Hrun & Hreq & Hsl).
    + lia.
    + intros j Hj. replace (sent + 1 + j)%nat with (sent + S j)%nat by lia.
      apply Hnone. lia.
    + replace (sent + 1 + k)%nat with (sent + S k)%nat by lia. exact Hsome.
    + rewrite Hrun. eexists. split; [reflexivity |].
      simpl. rewrite Hreq, Hsl. split; reflexivity.
Qed.

Lemma messageCompletion_loop_first_parse (fuel sent k : nat) (retryLength : Z)
    (v : T) :
  (k < fuel)%nat ->
  (forall j, (j < k)%nat -> parse (answer (sent + j)) = None) ->
  parse (answer (sent + k)) = Some v ->
  exists evs,
    messageCompletion_loop service parse fuel sent retryLength = (Some v, evs) /\
    requests evs = S k /\
    sleeps evs = [].
Proof.
  revert sent k retryLength.
  induction fuel as [| fuel IH]; intros sent k d Hk Hnone Hsome; [lia |].
  cbn [messageCompletion_loop].
  rewrite (completion_loop_answers service sent (answer sent) (answers sent)).
  destruct k as [| k].
  - rewrite Nat.add_0_r in Hsome. rewrite Hsome. eexists. repeat split.
  - pose proof (Hnone 0%nat ltac:(lia)) as H0. rewrite Nat.add_0_r in H0.
    rewrite H0. simpl requests.
    destruct (IH (sent + 1)%nat k d) as (evs & Hrun & Hreq & Hsl).
    + lia.
    + intros j Hj. replace (sent + 1 + j)%nat with (sent + S j)%nat by lia.
      apply Hnone. lia.
    + replace (sent + 1 + k)%nat with (sent + S k)%nat by lia. exact Hsome.
    + rewrite Hrun. eexists. split; [reflexivity |].
      simpl. rewrite Hreq, Hsl. split; reflexivity.
Qed.

End Wrappers.

End TypedFacts.

(** X6. The typed wrappers and [messageCompletion] do not bound their
    retries: against an endpoint that never answers, however many
    iterations are allowed the loop has not returned, and it has sent five
    requests per iteration. *)
Theorem typed_wrappers_never_give_up (service : nat -> Completion.outcome)
    {T : Type} (parse : string -> option T) (fuel : nat) :
  (forall n, Completion.attempt (service n) = None) ->
  (TypedCompletion.typedCompletion service parse fuel).1 = None /\
  Completion.requests (TypedCompletion.typedCompletion service parse fuel).2
    = (5 * fuel)%nat /\
  (TypedCompletion.messageCompletion service parse fuel).1 = None /\
  Completion.requests (TypedCompletion.messageCompletion service parse fuel).2
    = (5 * fuel)%nat.
Proof.
  intros Hfail. unfold TypedCompletion.typedCompletion, TypedCompletion.messageCompletion.
  destruct (TypedFacts.typedCompletion_loop_runs_on service parse fuel 0 1000 Hfail).
  destruct (TypedFacts.messageCompletion_loop_runs_on service parse fuel 0 1000 Hfail).
  auto.
Qed.

Lemma typed_wrappers_never_give_up_witness :
  (TypedCompletion.typedCompletion (fun _ => Completion.Rejected)
     TypedCompletion.yes_no 7).1 = None /\
  Completion.requests
    (TypedCompletion.typedCompletion (fun _ => Completion.Rejected)
       TypedCompletion.yes_no 7).2 = (5 * 7)%nat /\
  (TypedCompletion.messageCompletion (fun _ => Completion.Rejected)
     TypedCompletion.yes_no 7).1 = None /\
  Completion.requests
    (TypedCompletion.messageCompletion (fun _ => Completion.Rejected)
       TypedCompletion.yes_no 7).2 = (5 * 7)%nat.
Proof.
  apply (typed_wrappers_never_give_up (fun _ => Completion.Rejected)
           TypedCompletion.yes_no 7).
  intros n. reflexivity.
Defined.

(** X7. Against an endpoint that always answers, a typed wrapper returns
    the first answer that parses; if that is the k-th answer (from 0) it has
    sent k+1 requests and slept 1000, 2000, ..., 1000 * 2^(k-1) ms: it
    sleeps the delay and then doubles it. *)
Theorem typedCompletion_first_parse (service : nat -> Completion.outcome)
    {T : Type} (parse : string -> option T) (answer : nat -> string)
    (fuel k : nat) (v : T) :
  (forall n, Completion.attempt (service n) = Some (answer n)) ->
  (k < fuel)%nat ->
  (forall j, (j < k)%nat -> parse (answer j) = None) ->
  parse (answer k) = Some v ->
  exists evs,
    TypedCompletion.typedCompletion service parse fuel = (Some v, evs) /\
    Completion.requests evs = S k /\
    Completion.sleeps evs = TypedCompletion.doubling k 1000.
Proof.
  intros Hans Hk Hnone Hsome.
  apply (TypedFacts.typedCompletion_loop_first_parse service parse answer Hans
           fuel 0 k 1000 v Hk Hnone Hsome).
Qed.

Lemma typedCompletion_first_parse_witness :
  exists evs,
    TypedCompletion.typedCompletion TypedCompletion.third_time_yes
      (fun response => TypedCompletion.yes_no (TypedCompletion.trim response)) 3
      = (Some true, evs) /\
    Completion.requests evs = 3%nat /\
    Completion.sleeps evs = TypedCompletion.doubling 2 1000.
Proof.
  apply (typedCompletion_first_parse TypedCompletion.third_time_yes
           (fun response => TypedCompletion.yes_no (TypedCompletion.trim response))
           (fun n => if (n =? 2)%nat then " yes " else "maybe")%string 3 2 true).
  - intros n. unfold TypedCompletion.third_time_yes. simpl.
    destruct (n =? 2)%nat; reflexivity.
  - lia.
  - intros [| [| j]] Hj; [reflexivity | reflexivity | lia].
  - reflexivity.
Defined.

(** X8. [messageCompletion] retries an answer that does not parse at once:
    against an endpoint that always answers it returns the first answer that
    parses, after k+1 requests and without having slept at all. *)
Theorem messageCompletion_retries_at_once (service : nat -> Completion.outcome)
    {T : Type} (parse : string -> option T) (answer : nat -> string)
    (fuel k : nat) (v : T) :
  (forall n, Completion.attempt (service n) = Some (answer n)) ->
  (k < fuel)%nat ->
  (forall j, (j < k)%nat -> parse (answer j) = None) ->
  parse (answer k) = Some v ->
  exists evs,
    TypedCompletion.messageCompletion service parse fuel = (Some v, evs) /\
    Completion.requests evs = S k /\
    Completion.sleeps evs = [].
Proof.
  intros Hans Hk Hnone Hsome.
  apply (TypedFacts.messageCompletion_loop_first_parse service parse answer Hans
           fuel 0 k 1000 v Hk Hnone Hsome).
Qed.

Lemma messageCompletion_retries_at_once_witness :
  exists evs,
    TypedCompletion.messageCompletion TypedCompletion.third_time_yes
      (fun response => TypedCompletion.yes_no (TypedCompletion.trim response)) 3
      = (Some true, evs) /\
    Completion.requests evs = 3%nat /\
    Completion.sleeps evs = [].
Proof.
  apply (messageCompletion_retries_at_once TypedCompletion.third_time_yes
           (fun response => TypedCompletion.yes_no (TypedCompletion.trim response))
           (fun n => if (n =? 2)%nat then " yes " else "maybe")%string 3 2 true).
  - intros n. unfold TypedCompletion.third_time_yes. simpl.
    destruct (n =? 2)%nat; reflexivity.
  - lia.
  - intros [| [| j]] Hj; [reflexivity | reflexivity | lia].
  - reflexivity.
Defined.

(** ** The memory endpoints *)

Module MemoryApiFacts.
Import MemoryApi.

Lemma findIndex_None (wanted : string) (memories : list Memory) :
  findIndex wanted memories = None <->
  forall memory, In memory memories -> id memory <> wanted.
Proof.
  induction memories as [| m rest IH]; simpl.
  - split; [intros _ memory [] | reflexivity].
  - destruct (String.eqb_spec (id m) wanted) as [Heq | Hne].
    + split; [discriminate |]. intros H. exfalso. apply (H m); auto.
    + destruct (findIndex wanted rest) as [i |]; simpl.
      * split; [discriminate |]. intros H.
        assert (Hrest : forall memory, In memory rest -> id memory <> wanted)
          by (intros memory Hin; apply H; auto).
        apply IH in Hrest. discriminate.
      * split; [| reflexivity]. intros _ memory [<- | Hin]; [exact Hne |].
        by apply IH.
Qed.

(** What [findIndex] finds is the first record with that id. *)
Lemma findIndex_Some (wanted : string) (memories : list Memory) (i : nat) :
  findIndex wanted memories = Some i ->
  exists before memory after,
    memories = before ++ memory :: after /\
    length before = i /\
    id memory = wanted /\
    forall other, In other before -> id other <> wanted.
Proof.
  revert i. induction memories as [| m rest IH]; simpl; intros i; [discriminate |].
  destruct (String.eqb_spec (id m) wanted) as [Heq | Hne].
  - intros [= <-]. exists [], m, rest. repeat split; [exact Heq | intros other []].
  - destruct (findIndex wanted rest) as [j |]; simpl; [| discriminate].
    intros [= <-].
    destruct (IH j eq_refl) as (before & memory & after & -> & <- & Hid & Hbefore).
    exists (m :: before), memory, after. repeat split; [exact Hid |].
    intros other [<- | Hin]; [exact Hne | by apply Hbefore].
Qed.

Lemma findIndex_present (wanted : string) (memories : list Memory) (memory : Memory) :
  In memory memories -> id memory = wanted ->
  exists i, findIndex wanted memories = Some i.
Proof.
  intros Hin Hid.
  destruct (findIndex wanted memories) as [i |] eqn:Hfind; [eauto |].
  exfalso. exact (proj1 (findIndex_None wanted memories) Hfind memory Hin Hid).
Qed.

Lemma filter_sublist {A : Type} (f : A -> bool) (l : list A) :
  sublist (List.filter f l) l.
Proof.
  induction l as [| x l IH]; simpl; [constructor |].
  destruct (f x); by constructor.
Qed.

Lemma filter_by_sublist (field : Memory -> Settings.sval) (q : option string)
    (memories : list Memory) :
  sublist (filter_by field q memories) memories.
Proof.
  unfold filter_by. destruct q as [s |]; [| reflexivity].
  destruct (JS.truthy_string s); [apply filter_sublist | reflexivity].
Qed.

Lemma strict_eq_spec (v : Settings.sval) (q : string) :
  strict_eq v q = true <-> v = Settings.SStr q.
Proof.
  destruct v; simpl; try (split; [discriminate | intros [=]]).
  rewrite String.eqb_eq. split; [intros -> | intros [= ->]]; reflexivity.
Qed.

Lemma filter_by_In (field : Memory -> Settings.sval) (q : option string)
    (memories : list Memory) (memory : Memory) :
  In memory (filter_by field q memories) <->
  In memory memories /\
  forall s, q = Some s -> s <> EmptyString -> field memory = Settings.SStr s.
Proof.
  unfold filter_by. destruct q as [s |].
  - destruct (JS.truthy_string s) eqn:Hs.
    + rewrite filter_In, strict_eq_spec. split.
      * intros [Hin Heq]. split; [exact Hin |]. intros s' [= <-] _. exact Heq.
      * intros [Hin Heq]. split; [exact Hin |]. apply Heq; [reflexivity |].
        by apply AccountsFacts.truthy_nonempty.
    + split; [| tauto]. intros Hin. split; [exact Hin |].
      intros s' [= <-] Hne. apply AccountsFacts.truthy_nonempty in Hne. congruence.
  - split; [| tauto]. intros Hin. split; [exact Hin |]. intros s [=].
Qed.

End MemoryApiFacts.

(** X9. PUT and DELETE on an id that no record has answer 404 "Memory not
    found" and leave the array as it is. *)
Theorem put_delete_unknown_id (wanted : string) (newContent : Settings.sval)
    (now : string) (memories : list MemoryApi.Memory) :
  (forall memory, In memory memories -> MemoryApi.id memory <> wanted) ->
  MemoryApi.put wanted newContent now memories = (memories, MemoryApi.not_found) /\
  MemoryApi.delete wanted memories = (memories, MemoryApi.not_found).
Proof.
  intros Hno. apply MemoryApiFacts.findIndex_None in Hno.
  unfold MemoryApi.put, MemoryApi.delete. rewrite Hno. split; reflexivity.
Qed.

Lemma put_delete_unknown_id_witness :
  MemoryApi.put "m9" (Settings.SStr "new") "t1"
    [MemoryApi.sample_memory "m1" "ann"; MemoryApi.sample_memory "m2" "bob"]
  = ([MemoryApi.sample_memory "m1" "ann"; MemoryApi.sample_memory "m2" "bob"],
     MemoryApi.not_found) /\
  MemoryApi.delete "m9"
    [MemoryApi.sample_memory "m1" "ann"; MemoryApi.sample_memory "m2" "bob"]
  = ([MemoryApi.sample_memory "m1" "ann"; MemoryApi.sample_memory "m2" "bob"],
     MemoryApi.not_found).
Proof.
  apply (put_delete_unknown_id "m9" (Settings.SStr "new") "t1"
           [MemoryApi.sample_memory "m1" "ann"; MemoryApi.sample_memory "m2" "bob"]).
  intros memory [<- | [<- | []]]; simpl; discriminate.
Defined.

(** X10. DELETE on an id that some record has answers 200 and removes the
    first record with that id and nothing else: the records before and
    after it stay, in order, and the array is one shorter. *)
Theorem delete_removes_first (wanted : string) (memories : list MemoryApi.Memory)
    (present : MemoryApi.Memory) :
  In present memories -> MemoryApi.id present = wanted ->
  exists before memory after,
    memories = before ++ memory :: after /\
    MemoryApi.id memory = wanted /\
    (forall other, In other before -> MemoryApi.id other <> wanted) /\
    MemoryApi.delete wanted memories =
      (before ++ after,
       {| MemoryApi.status := 200;
          MemoryApi.json := MemoryApi.Message "Memory deleted successfully" |}) /\
    S (length (MemoryApi.delete wanted memories).1) = length memories.
Proof.
  intros Hin Hid.
  destruct (MemoryApiFacts.findIndex_present wanted memories present Hin Hid)
    as [i Hfind].
  destruct (MemoryApiFacts.findIndex_Some wanted memories i Hfind)
    as (before & memory & after & -> & <- & Hm & Hbefore).
  exists before, memory, after. unfold MemoryApi.delete. rewrite Hfind.
  rewrite delete_middle. simpl. repeat split; try assumption.
  rewrite !length_app. simpl. lia.
Qed.

Lemma delete_removes_first_witness :
  exists before memory after,
    [MemoryApi.sample_memory "m1" "ann"; MemoryApi.sample_memory "m2" "bob";
     MemoryApi.sample_memory "m2" "cy"] = before ++ memory :: after /\
    MemoryApi.id memory = "m2"%string /\
    (forall other, In other before -> MemoryApi.id other <> "m2"%string) /\
    MemoryApi.delete "m2"
      [MemoryApi.sample_memory "m1" "ann"; MemoryApi.sample_memory "m2" "bob";
       MemoryApi.sample_memory "m2" "cy"] =
      (before ++ after,
       {| MemoryApi.status := 200;
          MemoryApi.json := MemoryApi.Message "Memory deleted successfully" |}) /\
    S (length (MemoryApi.delete "m2"
                 [MemoryApi.sample_memory "m1" "ann"; MemoryApi.sample_memory "m2" "bob";
                  MemoryApi.sample_memory "m2" "cy"]).1) = 3%nat.
Proof.
  apply (delete_removes_first "m2"
           [MemoryApi.sample_memory "m1" "ann"; MemoryApi.sample_memory "m2" "bob";
            MemoryApi.sample_memory "m2" "cy"] (MemoryApi.sample_memory "m2" "bob")).
  - right. left. reflexivity.
  - reflexivity.
Defined.

(** X11. PUT on an id that some record has answers 200 with the updated
    record; it replaces the content of the first record with that id and
    stamps its updatedAt, keeping its id, userId, agentId and createdAt, and
    leaves every other record, and the order, as they were. *)
Theorem put_updates_first (wanted : string) (newContent : Settings.sval)
    (now : string) (memories : list MemoryApi.Memory) (present : MemoryApi.Memory) :
  In present memories -> MemoryApi.id present = wanted ->
  exists before memory after,
    memories = before ++ memory :: after /\
    MemoryApi.id memory = wanted /\
    (forall other, In other before -> MemoryApi.id other <> wanted) /\
    MemoryApi.put wanted newContent now memories =
      (before ++ MemoryApi.update newContent now memory :: after,
       {| MemoryApi.status := 200;
          MemoryApi.json :=
            MemoryApi.MessageMemory "Memory updated successfully"
              (MemoryApi.update newContent now memory) |}) /\
    MemoryApi.update newContent now memory =
      {| MemoryApi.id := wanted;
         MemoryApi.userId := MemoryApi.userId memory;
         MemoryApi.agentId := MemoryApi.agentId memory;
         MemoryApi.content := newContent;
         MemoryApi.createdAt := MemoryApi.createdAt memory;
         MemoryApi.updatedAt := Some now |}.
Proof.
  intros Hin Hid.
  destruct (MemoryApiFacts.findIndex_present wanted memories present Hin Hid)
    as [i Hfind].
  destruct (MemoryApiFacts.findIndex_Some wanted memories i Hfind)
    as (before & memory & after & -> & <- & Hm & Hbefore).
  exists before, memory, after. unfold MemoryApi.put. rewrite Hfind.
  replace (length before) with (length before + 0)%nat by lia.
  rewrite alter_app_r. simpl.
  rewrite lookup_app_r by lia.
  replace (length before + 0 - length before)%nat with 0%nat by lia. simpl.
  repeat split; try assumption.
  unfold MemoryApi.update. rewrite Hm. reflexivity.
Qed.

Lemma put_updates_first_witness :
  exists before memory after,
    [MemoryApi.sample_memory "m1" "ann"; MemoryApi.sample_memory "m2" "bob"]
      = before ++ memory :: after /\
    MemoryApi.id memory = "m2"%string /\
    (forall other, In other before -> MemoryApi.id other <> "m2"%string) /\
    MemoryApi.put "m2" (Settings.SStr "new") "t1"
      [MemoryApi.sample_memory "m1" "ann"; MemoryApi.sample_memory "m2" "bob"] =
      (before ++ MemoryApi.update (Settings.SStr "new") "t1" memory :: after,
       {| MemoryApi.status := 200;
          MemoryApi.json :=
            MemoryApi.MessageMemory "Memory updated successfully"
              (MemoryApi.update (Settings.SStr "new") "t1" memory) |}) /\
    MemoryApi.update (Settings.SStr "new") "t1" memory =
      {| MemoryApi.id := "m2";
         MemoryApi.userId := MemoryApi.userId memory;
         MemoryApi.agentId := MemoryApi.agentId memory;
         MemoryApi.content := Settings.SStr "new";
         MemoryApi.createdAt := MemoryApi.createdAt memory;
         MemoryApi.updatedAt := Some "t1"%string |}.
Proof.
  apply (put_updates_first "m2" (Settings.SStr "new") "t1"
           [MemoryApi.sample_memory "m1" "ann"; MemoryApi.sample_memory "m2" "bob"]
           (MemoryApi.sample_memory "m2" "bob")).
  - right. left. reflexivity.
  - reflexivity.
Defined.

(** X12. GET answers 200 with the records, in their stored order, whose
    userId and agentId are strictly equal to the query parameters given; a
    parameter that is absent or empty filters nothing. *)
Theorem get_filters (queryUserId queryAgentId : option string)
    (memories : list MemoryApi.Memory) :
  exists result,
    MemoryApi.get queryUserId queryAgentId memories =
      {| MemoryApi.status := 200; MemoryApi.json := MemoryApi.Memories result |} /\
    sublist result memories /\
    (forall memory,
        In memory result <->
        In memory memories /\
        (forall u, queryUserId = Some u -> u <> EmptyString ->
                   MemoryApi.userId memory = Settings.SStr u) /\
        (forall a, queryAgentId = Some a -> a <> EmptyString ->
                   MemoryApi.agentId memory = Settings.SStr a)) /\
    ((queryUserId = None \/ queryUserId = Some EmptyString) ->
     (queryAgentId = None \/ queryAgentId = Some EmptyString) ->
     result = memories).
Proof.
  eexists. split; [reflexivity |]. split; [| split].
  - etrans; apply MemoryApiFacts.filter_by_sublist.
  - intros memory. rewrite !MemoryApiFacts.filter_by_In. tauto.
  - intros [-> | ->] [-> | ->]; reflexivity.
Qed.

(** X13. POST answers 201 and appends the new record at the end, the
    records already stored being untouched; a GET without parameters then
    lists the old records followed by the new one, and, the new id being
    fresh, a DELETE of that id restores the array. *)
Theorem post_then_get_delete (uuid now : string)
    (bodyUserId bodyAgentId bodyContent : Settings.sval)
    (memories : list MemoryApi.Memory) :
  (forall memory, In memory memories -> MemoryApi.id memory <> uuid) ->
  let newMemory :=
    {| MemoryApi.id := uuid; MemoryApi.userId := bodyUserId;
       MemoryApi.agentId := bodyAgentId; MemoryApi.content := bodyContent;
       MemoryApi.createdAt := now; MemoryApi.updatedAt := None |} in
  let after := MemoryApi.post uuid now bodyUserId bodyAgentId bodyContent memories in
  MemoryApi.status after.2 = 201%nat /\
  after.1 = memories ++ [newMemory] /\
  MemoryApi.get None None after.1 =
    {| MemoryApi.status := 200;
       MemoryApi.json := MemoryApi.Memories (memories ++ [newMemory]) |} /\
  (MemoryApi.delete uuid after.1).1 = memories.
Proof.
  intros Hfresh. cbv zeta. repeat split.
  unfold MemoryApi.post. simpl.
  set (newMemory := {| MemoryApi.id := uuid |}).
  assert (Hin : In newMemory (memories ++ [newMemory]))
    by (apply in_or_app; right; left; reflexivity).
  destruct (MemoryApiFacts.findIndex_present uuid _ newMemory Hin eq_refl)
    as [i Hfind].
  destruct (MemoryApiFacts.findIndex_Some uuid _ i Hfind)
    as (before & memory & after & Heq & <- & Hm & Hbefore).
  unfold MemoryApi.delete. rewrite Hfind, Heq, delete_middle. simpl.
  (* the record found is the last one *)
  destruct after as [| a after].
  - apply app_inj_tail in Heq as [-> _]. by rewrite app_nil_r.
  - exfalso.
    assert (Hmem : In memory memories).
    { assert (Hlen : (length before < length memories)%nat).
      { apply (f_equal length) in Heq. rewrite !length_app in Heq. simpl in Heq. lia. }
      assert (Hl : (memories ++ [newMemory]) !! length before = Some memory).
      { rewrite Heq. rewrite lookup_app_r by lia.
        by rewrite Nat.sub_diag. }
      rewrite lookup_app_l in Hl by exact Hlen.
      apply list_elem_of_lookup_2 in Hl. by apply list_elem_of_In. }
    exact (Hfresh memory Hmem Hm).
Qed.

Lemma post_then_get_delete_witness :
  let newMemory :=
    {| MemoryApi.id := "m3"; MemoryApi.userId := Settings.SStr "cy";
       MemoryApi.agentId := Settings.SUndefined;
       MemoryApi.content := Settings.SStr "hello";
       MemoryApi.createdAt := "t1"; MemoryApi.updatedAt := None |} in
  let after :=
    MemoryApi.post "m3" "t1" (Settings.SStr "cy") Settings.SUndefined
      (Settings.SStr "hello")
      [MemoryApi.sample_memory "m1" "ann"; MemoryApi.sample_memory "m2" "bob"] in
  MemoryApi.status after.2 = 201%nat /\
  after.1 = [MemoryApi.sample_memory "m1" "ann"; MemoryApi.sample_memory "m2" "bob"]
            ++ [newMemory] /\
  MemoryApi.get None None after.1 =
    {| MemoryApi.status := 200;
       MemoryApi.json :=
         MemoryApi.Memories
           ([MemoryApi.sample_memory "m1" "ann"; MemoryApi.sample_memory "m2" "bob"]
            ++ [newMemory]) |} /\
  (MemoryApi.delete "m3" after.1).1
  = [MemoryApi.sample_memory "m1" "ann"; MemoryApi.sample_memory "m2" "bob"].
Proof.
  apply (post_then_get_delete "m3" "t1" (Settings.SStr "cy") Settings.SUndefined
           (Settings.SStr "hello")
           [MemoryApi.sample_memory "m1" "ann"; MemoryApi.sample_memory "m2" "bob"]).
  intros memory [<- | [<- | []]]; simpl; discriminate.
Defined.

(** ** Random selection *)

Module WalletsFacts.
Import Wallets.

Section Shuffle.

Context {A : Type}.
Variable random_index : nat -> nat.
Hypothesis random_in_range : forall i, (random_index i <= i)%nat.

Lemma swap_perm (l : list A) (i j : nat) : swap l i j ≡ₚ l.
Proof.
  unfold swap.
  destruct (l !! i) as [x |] eqn:Hi; [| reflexivity].
  destruct (l !! j) as [y |] eqn:Hj; [| reflexivity].
  by apply Permutation_insert_swap.
Qed.

Lemma shuffle_from_perm (i : nat) (l : list A) : shuffle_from random_index i l ≡ₚ l.
Proof.
  revert l. induction i as [| i IH]; intros l; simpl; [reflexivity |].
  rewrite IH. apply swap_perm.
Qed.

(** In range, [swap] does exchange the two elements. *)
Lemma swap_lookup (l : list A) (i j : nat) (x y : A) :
  l !! i = Some x -> l !! j = Some y ->
  swap l i j !! i = Some y /\ swap l i j !! j = Some x.
Proof.
  intros Hi Hj. unfold swap. rewrite Hi, Hj.
  pose proof (lookup_lt_Some _ _ _ Hi) as Hli.
  pose proof (lookup_lt_Some _ _ _ Hj) as Hlj.
  split.
  - destruct (decide (i = j)) as [-> | Hne].
    + rewrite list_lookup_insert_eq by (rewrite length_insert; lia). congruence.
    + rewrite list_lookup_insert_ne by congruence.
      by rewrite list_lookup_insert_eq by lia.
  - by rewrite list_lookup_insert_eq by (rewrite length_insert; lia).
Qed.

End Shuffle.

End WalletsFacts.

(** X14. [getRandomItems] returns items of the array without repeating a
    position: whatever the random draws (each within its range 0..i), its
    result together with some remainder is a permutation of the array, and
    for a count that is not negative it has that many items, or all of them
    if there are fewer. *)
Theorem getRandomItems_sub_permutation {A : Type} (random_index : nat -> nat)
    (array : list A) (numItems : Z) :
  (forall i, (random_index i <= i)%nat) ->
  (exists rest,
      Wallets.getRandomItems random_index array numItems ++ rest ≡ₚ array) /\
  (forall x, In x (Wallets.getRandomItems random_index array numItems) ->
             In x array) /\
  (0 <= numItems ->
   length (Wallets.getRandomItems random_index array numItems)
   = Nat.min (Z.to_nat numItems) (length array)).
Proof.
  intros _. unfold Wallets.getRandomItems.
  set (shuffled := Wallets.shuffle_from random_index (length array - 1) array).
  assert (Hperm : shuffled ≡ₚ array) by apply WalletsFacts.shuffle_from_perm.
  assert (Hlen : length shuffled = length array) by (by rewrite Hperm).
  assert (Hslice : JS.slice shuffled 0 numItems
                   = take (Z.to_nat (JS.rel_index (Z.of_nat (length shuffled)) numItems))
                       shuffled).
  { unfold JS.slice. rewrite (rel_index_nonneg _ 0) by lia.
    rewrite Z.min_l by lia. simpl. f_equal. lia. }
  rewrite Hslice. split; [| split].
  - eexists. rewrite take_drop. exact Hperm.
  - intros x Hx. apply list_elem_of_In. rewrite <- Hperm.
    apply list_elem_of_In in Hx. exact (subseteq_take _ _ _ Hx).
  - intros Hn. rewrite length_take, rel_index_nonneg, Hlen by lia. lia.
Qed.

Lemma getRandomItems_sub_permutation_witness :
  (exists rest,
      Wallets.getRandomItems (fun i => (i - 1)%nat) ["w1"; "w2"; "w3"]%string 1
        ++ rest ≡ₚ ["w1"; "w2"; "w3"]%string) /\
  (forall x,
      In x (Wallets.getRandomItems (fun i => (i - 1)%nat) ["w1"; "w2"; "w3"]%string 1) ->
      In x ["w1"; "w2"; "w3"]%string) /\
  (0 <= 1 ->
   length (Wallets.getRandomItems (fun i => (i - 1)%nat) ["w1"; "w2"; "w3"]%string 1)
   = Nat.min (Z.to_nat 1) (length ["w1"; "w2"; "w3"]%string)).
Proof.
  apply (getRandomItems_sub_permutation (fun i => (i - 1)%nat)
           ["w1"; "w2"; "w3"]%string 1).
  intros i. lia.
Defined.

(** The draws above move the last wallet to the front. *)
Example getRandomItems_sample :
  Wallets.getRandomItems (fun i => (i - 1)%nat) ["w1"; "w2"; "w3"]%string 1
  = ["w3"%string].
Proof. reflexivity. Qed.

(** ** Reactions *)

Module ReactionsFacts.





End ReactionsFacts.


(** ** More on action resolution *)

Module ResolutionFacts.
Import Dispatcher.

Lemma starts_with_refl (s : string) : JS.starts_with s s = true.
Proof.
  induction s as [| c s IH]; simpl; [reflexivity |].
  by rewrite Ascii.eqb_refl, IH.
Qed.

Lemma includes_refl (s : string) : JS.includes s s = true.
Proof. destruct s; simpl; [reflexivity |]. by rewrite Ascii.eqb_refl, starts_with_refl. Qed.

Lemma includes_empty (s : string) : JS.includes s EmptyString = true.
Proof. destruct s; reflexivity. Qed.

Lemma matches_own_name (n : string) : matches (normalize n) n = true.
Proof. unfold matches. by rewrite includes_refl. Qed.

Lemma matches_empty (n : string) : matches n EmptyString = true.
Proof.
  unfold matches. change (normalize EmptyString) with EmptyString.
  rewrite includes_empty. apply orb_true_r.
Qed.

Lemma find_by_simile_sound (actions : list Action) (n : string) (a : Action) :
  find_by_simile actions n = Some a ->
  In a actions /\
  exists simile, In simile (similes a) /\ matches n simile = true
                 /\ simile <> EmptyString.
Proof.
  induction actions as [| b rest IH]; simpl; [discriminate |].
  destruct (List.find (matches n) (similes b)) as [s |] eqn:Hfind.
  - destruct (JS.truthy_string s) eqn:Hs.
    + intros [= <-]. split; [by left |].
      apply find_some in Hfind as [Hin Hm]. exists s. repeat split; try assumption.
      by apply AccountsFacts.truthy_nonempty.
    + intros H. destruct (IH H) as [Hin Hex]. split; [by right | exact Hex].
  - intros H. destruct (IH H) as [Hin Hex]. split; [by right | exact Hex].
Qed.

Lemma resolve_sound (actions : list Action) (chosen : string) (a : Action) :
  resolve actions chosen = Some a ->
  In a actions /\
  (matches (normalize chosen) (name a) = true \/
   exists simile, In simile (similes a) /\ matches (normalize chosen) simile = true
                  /\ simile <> EmptyString).
Proof.
  unfold resolve, find_by_name.
  destruct (List.find _ actions) as [b |] eqn:Hfind.
  - intros [= <-]. apply find_some in Hfind as [Hin Hm]. auto.
  - intros H. apply find_by_simile_sound in H as [Hin Hex]. auto.
Qed.

End ResolutionFacts.

(** X16. [processActions] calls at most the handler of a registered action
    that matches: if a handler is called, no warning is logged, the first
    response names an action, and the action called is registered, has a
    handler, and matches the normalized name by its own name or by one of
    its non-empty aliases. *)
Theorem processActions_calls_only_matching (actions : list Dispatcher.Action)
    (responses : list Dispatcher.Content) (a : Dispatcher.Action) (warned : bool) :
  Dispatcher.processActions actions responses = Dispatcher.Done (Some a) warned ->
  warned = false /\
  In a actions /\
  is_Some (Dispatcher.handler a) /\
  exists first rest chosen,
    responses = first :: rest /\
    Dispatcher.action first = Some chosen /\
    chosen <> EmptyString /\
    (Dispatcher.matches (Dispatcher.normalize chosen) (Dispatcher.name a) = true \/
     exists simile,
       In simile (Dispatcher.similes a) /\
       Dispatcher.matches (Dispatcher.normalize chosen) simile = true /\
       simile <> EmptyString).
Proof.
  unfold Dispatcher.processActions.
  destruct responses as [| first rest]; [discriminate |].
  destruct (Dispatcher.action first) as [chosen |] eqn:Hact; [| discriminate].
  destruct (JS.truthy_string chosen) eqn:Htr; simpl; [| discriminate].
  destruct (Dispatcher.resolve actions chosen) as [b |] eqn:Hres; [| discriminate].
  destruct (Dispatcher.handler b) as [h |] eqn:Hh; [| discriminate].
  intros [= <- <-].
  apply ResolutionFacts.resolve_sound in Hres as [Hin Hm].
  split; [reflexivity |]. split; [exact Hin |]. split; [rewrite Hh; eauto |].
  exists first, rest, chosen. repeat split; try assumption.
  by apply AccountsFacts.truthy_nonempty.
Qed.

Lemma processActions_calls_only_matching_witness :
  false = false /\
  In Dispatcher.follow_room [Dispatcher.follow_room; Dispatcher.unfollow_room] /\
  is_Some (Dispatcher.handler Dispatcher.follow_room) /\
  exists first rest chosen,
    [ {| Dispatcher.action := Some "Follow_Room"%string |} ] = first :: rest /\
    Dispatcher.action first = Some chosen /\
    chosen <> EmptyString /\
    (Dispatcher.matches (Dispatcher.normalize chosen)
       (Dispatcher.name Dispatcher.follow_room) = true \/
     exists simile,
       In simile (Dispatcher.similes Dispatcher.follow_room) /\
       Dispatcher.matches (Dispatcher.normalize chosen) simile = true /\
       simile <> EmptyString).
Proof.
  apply (processActions_calls_only_matching
           [Dispatcher.follow_room; Dispatcher.unfollow_room]
           [ {| Dispatcher.action := Some "Follow_Room"%string |} ]
           Dispatcher.follow_room false).
  reflexivity.
Defined.

(** X17. Choosing the exact name of a registered action never ends in the
    warning: some registered action is resolved by name, the first whose
    name matches (which may be an earlier one than the action meant). *)
Theorem resolve_registered_name (actions : list Dispatcher.Action)
    (a : Dispatcher.Action) :
  In a actions ->
  exists b,
    Dispatcher.resolve actions (Dispatcher.name a) = Some b /\
    In b actions /\
    Dispatcher.matches (Dispatcher.normalize (Dispatcher.name a)) (Dispatcher.name b)
      = true.
Proof.
  intros Hin. unfold Dispatcher.resolve, Dispatcher.find_by_name.
  destruct (List.find _ actions) as [b |] eqn:Hfind.
  - exists b. apply find_some in Hfind as [Hb Hm]. auto.
  - exfalso. pose proof (find_none _ _ Hfind a Hin) as Hno. simpl in Hno.
    rewrite ResolutionFacts.matches_own_name in Hno. discriminate.
Qed.

Lemma resolve_registered_name_witness :
  exists b,
    Dispatcher.resolve [Dispatcher.follow_room; Dispatcher.unfollow_room]
      (Dispatcher.name Dispatcher.unfollow_room) = Some b /\
    In b [Dispatcher.follow_room; Dispatcher.unfollow_room] /\
    Dispatcher.matches
      (Dispatcher.normalize (Dispatcher.name Dispatcher.unfollow_room))
      (Dispatcher.name b) = true.
Proof.
  apply (resolve_registered_name [Dispatcher.follow_room; Dispatcher.unfollow_room]
           Dispatcher.unfollow_room).
  right. left. reflexivity.
Defined.

(** In the registration order of the agent, FOLLOW_ROOM before
    UNFOLLOW_ROOM, the chosen name UNFOLLOW_ROOM resolves to FOLLOW_ROOM. *)
Example resolve_unfollow_gives_follow :
  Dispatcher.resolve [Dispatcher.follow_room; Dispatcher.unfollow_room]
    "UNFOLLOW_ROOM" = Some Dispatcher.follow_room.
Proof. reflexivity. Qed.

(** X18. An empty alias hides the aliases after it: [find] stops at the
    empty string, which every name contains, and the empty string is falsy,
    so an action whose alias list begins with it is never selected through
    an alias. *)
Theorem empty_simile_hides_action (a : Dispatcher.Action)
    (rest : list Dispatcher.Action) (others : list string) (normalizedAction : string) :
  Dispatcher.similes a = EmptyString :: others ->
  Dispatcher.find_by_simile (a :: rest) normalizedAction
  = Dispatcher.find_by_simile rest normalizedAction.
Proof.
  intros Hs. simpl. rewrite Hs. simpl.
  rewrite ResolutionFacts.matches_empty. reflexivity.
Qed.

Lemma empty_simile_hides_action_witness :
  Dispatcher.find_by_simile
    [ {| Dispatcher.name := "JOIN"; Dispatcher.similes := [""; "follow"]%string;
         Dispatcher.handler := Some 3%nat |} ] "follow"
  = Dispatcher.find_by_simile [] "follow".
Proof.
  apply (empty_simile_hides_action
           {| Dispatcher.name := "JOIN"; Dispatcher.similes := [""; "follow"]%string;
              Dispatcher.handler := Some 3%nat |} [] ["follow"%string] "follow").
  reflexivity.
Defined.

(** ** More on evaluators *)

(** X19. When no registered evaluator both has a handler and passes its
    [validate], [evaluate] returns the empty array without asking the model
    and without running any handler. *)
Theorem evaluate_nothing_validated {Message State : Type}
    (llm : option State -> list (Evaluation.Evaluator Message State)
           -> Evaluation.llm_result)
    (evaluators : list (Evaluation.Evaluator Message State))
    (message : Message) (state : option State) :
  (forall e, In e evaluators ->
     Evaluation.has_handler e && Evaluation.validate e message state = false) ->
  Evaluation.evaluate llm evaluators message state =
  {| Evaluation.offered := None; Evaluation.executed := [];
     Evaluation.returned := Some (Some []) |}.
Proof.
  intros Hnone. unfold Evaluation.evaluate.
  replace (List.filter _ evaluators) with (@nil (Evaluation.Evaluator Message State));
    [reflexivity |].
  symmetry. induction evaluators as [| e rest IH]; simpl; [reflexivity |].
  rewrite (Hnone e) by (by left). apply IH. intros e' He'. apply Hnone. by right.
Qed.

Lemma evaluate_nothing_validated_witness :
  Evaluation.evaluate Evaluation.names_rejected [Evaluation.rejected] tt None =
  {| Evaluation.offered := None; Evaluation.executed := [];
     Evaluation.returned := Some (Some []) |}.
Proof.
  apply (evaluate_nothing_validated Evaluation.names_rejected
           [Evaluation.rejected] tt None).
  intros e [<- | []]. reflexivity.
Defined.

(** X20. The evaluators offered to the model are exactly the registered
    evaluators that have a handler and passed [validate] on the message and
    state. *)
Theorem evaluate_offers_validated_only {Message State : Type}
    (llm : option State -> list (Evaluation.Evaluator Message State)
           -> Evaluation.llm_result)
    (evaluators : list (Evaluation.Evaluator Message State))
    (message : Message) (state : option State)
    (l : list (Evaluation.Evaluator Message State)) :
  Evaluation.offered (Evaluation.evaluate llm evaluators message state) = Some l ->
  l = List.filter
        (fun e => Evaluation.has_handler e && Evaluation.validate e message state)
        evaluators /\
  l <> [] /\
  forall e, In e l <->
    In e evaluators /\ Evaluation.has_handler e = true
    /\ Evaluation.validate e message state = true.
Proof.
  intros Hoff.
  split; [| split].
  - revert Hoff. unfold Evaluation.evaluate.
    destruct (length _ =? 0)%nat; simpl; [discriminate |].
    destruct (llm state _); simpl; intros [= <-]; reflexivity.
  - revert Hoff. unfold Evaluation.evaluate.
    destruct (List.filter _ evaluators) as [| e rest] eqn:Hf; simpl; [discriminate |].
    destruct (llm state _); simpl; intros [= <-]; discriminate.
  - revert Hoff. unfold Evaluation.evaluate.
    destruct (length _ =? 0)%nat; simpl; [discriminate |].
    destruct (llm state _); simpl; intros [= <-] e;
      rewrite filter_In, andb_true_iff; tauto.
Qed.

Lemma evaluate_offers_validated_only_witness :
  [Evaluation.validated] =
    List.filter
      (fun e => Evaluation.has_handler e && Evaluation.validate e tt None)
      [Evaluation.validated; Evaluation.rejected] /\
  [Evaluation.validated] <> [] /\
  forall e, In e [Evaluation.validated] <->
    In e [Evaluation.validated; Evaluation.rejected]
    /\ Evaluation.has_handler e = true
    /\ Evaluation.validate e tt None = true.
Proof.
  apply (evaluate_offers_validated_only Evaluation.names_rejected
           [Evaluation.validated; Evaluation.rejected] tt None
           [Evaluation.validated]).
  reflexivity.
Defined.

(** ** More on chunking *)

Module ChunkFacts.

Lemma splitChunks_loop_length (encoding : Encoding) (content : string)
    (tokens : list token) (chunkSize bleed : Z) (fuel : nat) (i : Z)
    (parts : list chunk_parts) :
  0 < chunkSize -> 0 <= i ->
  splitChunks_loop fuel encoding content tokens chunkSize bleed i = Some parts ->
  Z.of_nat (length parts)
  = Z.max 0 ((Z.of_nat (length tokens) - i + chunkSize - 1) / chunkSize).
Proof.
  intros Hpos. revert i parts.
  assert (Hdone : forall i, Z.of_nat (length tokens) <= i ->
            0 = Z.max 0 ((Z.of_nat (length tokens) - i + chunkSize - 1) / chunkSize)).
  { intros i Hi. rewrite Z.max_l; [reflexivity |].
    assert ((Z.of_nat (length tokens) - i + chunkSize - 1) / chunkSize < 1);
      [| lia].
    apply Z.div_lt_upper_bound; lia. }
  induction fuel as [| fuel IH]; intros i parts Hi; simpl;
    destruct (Z.ltb_spec i (Z.of_nat (length tokens))) as [Hlt | Hge];
    intros Hrun; try discriminate.
  - injection Hrun as <-. simpl. by apply Hdone.
  - destruct (splitChunks_loop fuel encoding content tokens chunkSize bleed
                (i + chunkSize)) as [rest |] eqn:Hrest; [| discriminate].
    simpl in Hrun. injection Hrun as <-.
    assert (Hnext : 0 <= i + chunkSize) by lia.
    pose proof (IH _ _ Hnext Hrest) as Hlen.
    replace (Z.of_nat (length tokens) - (i + chunkSize) + chunkSize - 1)
      with (Z.of_nat (length tokens) - i - 1) in Hlen by lia.
    replace (Z.of_nat (length tokens) - i + chunkSize - 1)
      with (Z.of_nat (length tokens) - i - 1 + 1 * chunkSize) by lia.
    rewrite Z.div_add by lia.
    assert (0 <= (Z.of_nat (length tokens) - i - 1) / chunkSize)
      by (apply Z.div_pos; lia).
    simpl length. lia.
  - injection Hrun as <-. simpl. by apply Hdone.
Qed.

Lemma string_of_list_ascii_app (a b : list ascii) :
  string_of_list_ascii (a ++ b)
  = (string_of_list_ascii a ++ string_of_list_ascii b)%string.
Proof. induction a as [| c a IH]; simpl; [reflexivity | by rewrite IH]. Qed.

Lemma char_decode_app (a b : list token) :
  decode char_encoding (a ++ b)
  = (decode char_encoding a ++ decode char_encoding b)%string.
Proof. simpl. by rewrite map_app, string_of_list_ascii_app. Qed.

End ChunkFacts.

(** X21. With a positive chunk size [splitChunks] returns, after as many
    iterations as there are tokens at most, and it yields
    ceil(count / chunkSize) chunks, [count] being the number of tokens. *)
Theorem splitChunks_chunk_count (encoding : Encoding) (content : string)
    (chunkSize bleed : Z) :
  0 < chunkSize ->
  exists chunks,
    splitChunks (length (encode encoding content)) encoding content chunkSize bleed
      = Some chunks /\
    Z.of_nat (length chunks)
    = (Z.of_nat (length (encode encoding content)) + chunkSize - 1) / chunkSize.
Proof.
  intros Hpos. unfold splitChunks, splitChunks_parts.
  destruct (splitChunks_loop_terminates encoding content (encode encoding content)
              chunkSize bleed (length (encode encoding content)) 0 Hpos
              (Z.le_refl 0) ltac:(lia)) as [parts Hrun].
  rewrite Hrun. simpl. eexists. split; [reflexivity |].
  rewrite length_map.
  rewrite (ChunkFacts.splitChunks_loop_length _ _ _ _ _ _ _ _ Hpos (Z.le_refl 0) Hrun).
  rewrite Z.sub_0_r. apply Z.max_r. apply Z.div_pos; lia.
Qed.

Lemma splitChunks_chunk_count_witness :
  exists chunks,
    splitChunks (length (encode char_encoding "abcde")) char_encoding "abcde" 2 1
      = Some chunks /\
    Z.of_nat (length chunks)
    = (Z.of_nat (length (encode char_encoding "abcde")) + 2 - 1) / 2.
Proof.
  apply (splitChunks_chunk_count char_encoding "abcde" 2 1). lia.
Defined.

(** X22. With a positive chunk size and an encoding whose decoding
    distributes over concatenation and inverts the encoding of the text,
    [splitChunks] returns chunks whose cores, put one after the other, are
    the text. *)
Theorem splitChunks_covers_text (encoding : Encoding) (content : string)
    (chunkSize bleed : Z) :
  decode encoding [] = EmptyString ->
  (forall a b, decode encoding (a ++ b)
               = (decode encoding a ++ decode encoding b)%string) ->
  decode encoding (encode encoding content) = content ->
  0 < chunkSize ->
  exists parts,
    splitChunks_parts (length (encode encoding content)) encoding content
      chunkSize bleed = Some parts /\
    splitChunks (length (encode encoding content)) encoding content
      chunkSize bleed = Some (map chunk_text parts) /\
    cores_text parts = content.
Proof.
  intros Hnil Happ Hinv Hpos.
  destruct (splitChunks_loop_terminates encoding content (encode encoding content)
              chunkSize bleed (length (encode encoding content)) 0 Hpos
              (Z.le_refl 0) ltac:(lia)) as [parts Hrun].
  exists parts. unfold splitChunks, splitChunks_parts. rewrite Hrun.
  repeat split.
  rewrite (splitChunks_loop_covering _ _ _ _ _ Hnil Happ _ _ _ Hpos (Z.le_refl 0) Hrun).
  exact Hinv.
Qed.

Lemma splitChunks_covers_text_witness :
  exists parts,
    splitChunks_parts (length (encode char_encoding "abcde")) char_encoding "abcde"
      2 1 = Some parts /\
    splitChunks (length (encode char_encoding "abcde")) char_encoding "abcde"
      2 1 = Some (map chunk_text parts) /\
    cores_text parts = "abcde"%string.
Proof.
  apply (splitChunks_covers_text char_encoding "abcde" 2 1).
  - reflexivity.
  - exact ChunkFacts.char_decode_app.
  - reflexivity.
  - lia.
Defined.

(** X23. With a chunk size that is zero or negative, [splitChunks] never
    returns on a text that has at least one token: the loop index does not
    advance. *)
Theorem splitChunks_never_returns (encoding : Encoding) (content : string)
    (chunkSize bleed : Z) (fuel : nat) :
  encode encoding content <> [] ->
  chunkSize <= 0 ->
  splitChunks fuel encoding content chunkSize bleed = None.
Proof.
  intros Hne Hcs. unfold splitChunks, splitChunks_parts.
  rewrite splitChunks_loop_diverges; [reflexivity | exact Hcs |].
  destruct (encode encoding content); [congruence | simpl; lia].
Qed.

Lemma splitChunks_never_returns_witness :
  splitChunks 1000 char_encoding "abcde" 0 100 = None.
Proof.
  apply (splitChunks_never_returns char_encoding "abcde" 0 100 1000).
  - discriminate.
  - lia.
Defined.

(** ** More on attachment redaction *)

(** X24. The attachment step of [composeState] changes nothing but the text
    of attachment objects: every object is afterwards as before or as
    before with its text hidden; an object that no message of the fetched
    page refers to is as before; and when no fetched message carries an
    attachment, no object changes, the page keeps its order and the
    attachments listed are those of the incoming message. *)
Theorem composeState_attachments_frame (now : Z) (message : Memory)
    (recentMessagesData : list Memory) (h : gmap loc Media) :
  let r := Composer.composeState_attachments now message recentMessagesData h in
  (forall a, Composer.heap_after r !! a = h !! a \/
             Composer.heap_after r !! a = Composer.hide <$> h !! a) /\
  (forall a,
      (forall msg, In msg recentMessagesData ->
                   ~ In a (Composer.attachments_or_empty msg)) ->
      Composer.heap_after r !! a = h !! a) /\
  ((forall msg, In msg recentMessagesData -> Composer.has_attachments msg = false) ->
   r = {| Composer.heap_after := h;
          Composer.recentMessagesData_after := recentMessagesData;
          Composer.allAttachments := Composer.attachments_or_empty message |}).
Proof.
  cbv zeta. unfold Composer.composeState_attachments.
  destruct (List.find Composer.has_attachments recentMessagesData)
    as [lastm |] eqn:Hfind; simpl.
  - split; [| split].
    + intros a. rewrite AttachmentFacts.foldl_redact_lookup.
      destruct (existsb _ _); auto.
    + intros a Hno. rewrite AttachmentFacts.foldl_redact_lookup.
      replace (existsb _ _) with false; [reflexivity |].
      symmetry. apply not_true_iff_false. intros Hex.
      apply existsb_exists in Hex as (msg & Hin & Hh).
      unfold Composer.hides in Hh. apply andb_true_iff in Hh as [_ Hmem].
      apply bool_decide_eq_true_1 in Hmem. apply list_elem_of_In in Hmem.
      apply in_rev in Hin. exact (Hno msg Hin Hmem).
    + intros Hnone. apply find_some in Hfind as [Hin Hhas].
      rewrite (Hnone lastm Hin) in Hhas. discriminate.
  - split; [auto |]. split; [auto |]. reflexivity.
Qed.

(** ** Refreshing the recent messages *)

Module RefreshFacts.
Import Composer Refresh.

Lemma in_concat_map {A B : Type} (f : A -> list B) (l : list A) (b : B) :
  In b (concat (map f l)) <-> exists x, In x l /\ In b (f x).
Proof.
  rewrite in_concat. split.
  - intros (ys & Hys & Hb). apply in_map_iff in Hys as (x & <- & Hx). eauto.
  - intros (x & Hx & Hb). exists (f x). split; [by apply in_map | exact Hb].
Qed.

Lemma withinWindow_spec (bound : option Z) (msg : Memory) :
  withinWindow bound msg = true <->
  exists t b, createdAt msg = Some t /\ bound = Some b /\ b <= t.
Proof.
  unfold withinWindow.
  destruct (createdAt msg) as [t |], bound as [b |]; simpl.
  - rewrite Z.geb_leb, Z.leb_le. split.
    + intros H. exists t, b. auto.
    + intros (t' & b' & [= <-] & [= <-] & H). exact H.
  - split; [discriminate | intros (? & ? & _ & [=] & _)].
  - split; [discriminate | intros (? & ? & [=] & _)].
  - split; [discriminate | intros (? & ? & [=] & _)].
Qed.

End RefreshFacts.

(** X25. [updateRecentMessageState] sets the three fields recentMessages,
    recentMessagesData and attachments and keeps every other field of the
    state it is given; the page is stored in the order it was fetched. *)
Theorem updateRecentMessageState_frame (h : gmap loc Media)
    (recentMessagesData : list Memory) (recentMessages : string)
    (state : gmap string Composer.jsval) :
  let state' := Refresh.updateRecentMessageState h recentMessagesData
                  recentMessages state in
  state' !! "recentMessages"%string = Some (Composer.JStr recentMessages) /\
  state' !! "recentMessagesData"%string
    = Some (Composer.JMemories recentMessagesData) /\
  state' !! "attachments"%string
    = Some (Composer.JStr
              (Refresh.formattedAttachments h
                 (Refresh.refreshed_attachments recentMessagesData))) /\
  (forall k, k <> "recentMessages"%string -> k <> "recentMessagesData"%string ->
             k <> "attachments"%string -> state' !! k = state !! k).
Proof.
  cbv zeta. unfold Refresh.updateRecentMessageState. repeat split.
  - rewrite lookup_insert_ne by discriminate.
    rewrite lookup_insert_ne by discriminate.
    apply lookup_insert_eq.
  - rewrite lookup_insert_ne by discriminate. apply lookup_insert_eq.
  - apply lookup_insert_eq.
  - intros k H1 H2 H3. by rewrite !lookup_insert_ne by congruence.
Qed.

(** X26. The attachments listed by [updateRecentMessageState] are those of
    the fetched messages created no earlier than one hour before the first
    attachment-bearing message of the page, both being timestamped; the
    attachments of that message itself are listed when it is timestamped;
    and every attachment it lists is also among those [composeState] lists
    for the same page. *)
Theorem refreshed_attachments_window (recentMessagesData : list Memory) :
  (forall a, In a (Refresh.refreshed_attachments recentMessagesData) <->
     exists lastMessageWithAttachment lastMessageTime msg msgTime,
       List.find Composer.has_attachments recentMessagesData
         = Some lastMessageWithAttachment /\
       createdAt lastMessageWithAttachment = Some lastMessageTime /\
       In msg recentMessagesData /\
       In a (Composer.attachments_or_empty msg) /\
       createdAt msg = Some msgTime /\
       lastMessageTime - 3600000 <= msgTime) /\
  (forall lastMessageWithAttachment lastMessageTime a,
      List.find Composer.has_attachments recentMessagesData
        = Some lastMessageWithAttachment ->
      createdAt lastMessageWithAttachment = Some lastMessageTime ->
      In a (Composer.attachments_or_empty lastMessageWithAttachment) ->
      In a (Refresh.refreshed_attachments recentMessagesData)) /\
  (forall now message h a,
      In a (Refresh.refreshed_attachments recentMessagesData) ->
      In a (Composer.allAttachments
              (Composer.composeState_attachments now message recentMessagesData h))).
Proof.
  assert (Hiff : forall a, In a (Refresh.refreshed_attachments recentMessagesData) <->
     exists lastm T msg t,
       List.find Composer.has_attachments recentMessagesData = Some lastm /\
       createdAt lastm = Some T /\
       In msg recentMessagesData /\
       In a (Composer.attachments_or_empty msg) /\
       createdAt msg = Some t /\
       T - 3600000 <= t).
  { intros a. unfold Refresh.refreshed_attachments.
    destruct (List.find Composer.has_attachments recentMessagesData)
      as [lastm |] eqn:Hfind.
    - rewrite RefreshFacts.in_concat_map. split.
      + intros (msg & Hmsg & Ha). apply filter_In in Hmsg as [Hin Hw].
        apply RefreshFacts.withinWindow_spec in Hw as (t & b & Ht & Hb & Hle).
        destruct (createdAt lastm) as [T |] eqn:HT; [| discriminate].
        simpl in Hb. injection Hb as <-.
        exists lastm, T, msg, t. repeat split; try assumption; lia.
      + intros (lastm' & T & msg & t & [= <-] & HT & Hin & Ha & Ht & Hle).
        exists msg. split; [| exact Ha]. apply filter_In. split; [exact Hin |].
        apply RefreshFacts.withinWindow_spec. exists t, (T - 60 * 60 * 1000).
        rewrite HT. repeat split; try assumption; lia.
    - split; [intros [] |]. intros (? & ? & ? & ? & [=] & _). }
  split; [exact Hiff |]. split.
  - intros lastm T a Hfind HT Ha. apply Hiff.
    exists lastm, T, lastm, T. apply find_some in Hfind as Hf. destruct Hf as [Hin _].
    repeat split; try assumption; lia.
  - intros now message h a Ha. apply Hiff in Ha
      as (lastm & T & msg & t & Hfind & _ & Hin & Hmem & _).
    unfold Composer.composeState_attachments. rewrite Hfind. simpl.
    apply RefreshFacts.in_concat_map. exists msg. split; [| exact Hmem].
    by apply in_rev in Hin.
Qed.

(** ** Cleaning a generated tweet *)

Module TweetsFacts.
Import Tweets.



End TweetsFacts.


(** ** Starting the clients *)

(** X28. [startAgent] reads the Telegram token with [??], not with
    [getSetting]: a character secret TELEGRAM_BOT_TOKEN that is the empty
    string is taken as the token and, being falsy, keeps the Telegram
    client out of the clients returned, although the imported settings hold
    a token that [getSetting] would answer with.  The failure is caught: for
    a character whose clients have an entry that lowercases to "twitter",
    the array returned holds the three Twitter clients, pushed in the order
    interaction, search, generation, and nothing else. *)
Theorem startAgent_empty_secret_blocks_telegram (argvTelegram telegramStarts : bool)
    (clients : list string) (entry : string)
    (characterSettings settings : Settings.sval) (token : string) :
  Settings.get (Settings.get characterSettings "secrets") "TELEGRAM_BOT_TOKEN"
    = Settings.SStr EmptyString ->
  Settings.get characterSettings "TELEGRAM_BOT_TOKEN" = Settings.SUndefined ->
  Settings.get settings "TELEGRAM_BOT_TOKEN" = Settings.SStr token ->
  token <> EmptyString ->
  In entry clients ->
  JS.toLowerCase entry = "twitter"%string ->
  Settings.getSetting characterSettings settings "TELEGRAM_BOT_TOKEN"
    = Settings.SStr token /\
  Agents.startAgent_clients argvTelegram (Some clients) characterSettings settings
    telegramStarts
  = Some [Agents.TwitterInteraction; Agents.TwitterSearch;
          Agents.TwitterGeneration].
Proof.
  intros Hsecret Hown Henv Htoken Hentry Hlower.
  apply AccountsFacts.truthy_nonempty in Htoken.
  split.
  - unfold Settings.getSetting. rewrite Hsecret, Hown, Henv. simpl.
    rewrite Htoken. reflexivity.
  - assert (Htw : Agents.lists_client clients "twitter" = true).
    { unfold Agents.lists_client. apply existsb_exists.
      exists (JS.toLowerCase entry). split.
      - by apply in_map.
      - rewrite Hlower. reflexivity. }
    unfold Agents.startAgent_clients, Agents.botToken. rewrite Hsecret, Htw. simpl.
    destruct (argvTelegram || Agents.lists_client clients "telegram"); reflexivity.
Qed.

Lemma startAgent_empty_secret_blocks_telegram_witness :
  Settings.getSetting
    (Settings.SObj [("secrets", Settings.SObj [("TELEGRAM_BOT_TOKEN", Settings.SStr "")])]%string)
    (Settings.SObj [("TELEGRAM_BOT_TOKEN", Settings.SStr "123:abc")]%string)
    "TELEGRAM_BOT_TOKEN"
    = Settings.SStr "123:abc" /\
  Agents.startAgent_clients true (Some ["Telegram"; "TWitter"]%string)
    (Settings.SObj [("secrets", Settings.SObj [("TELEGRAM_BOT_TOKEN", Settings.SStr "")])]%string)
    (Settings.SObj [("TELEGRAM_BOT_TOKEN", Settings.SStr "123:abc")]%string)
    true
  = Some [Agents.TwitterInteraction; Agents.TwitterSearch;
          Agents.TwitterGeneration].
Proof.
  apply (startAgent_empty_secret_blocks_telegram true true
           ["Telegram"; "TWitter"]%string "TWitter"
           (Settings.SObj [("secrets", Settings.SObj [("TELEGRAM_BOT_TOKEN", Settings.SStr "")])]%string)
           (Settings.SObj [("TELEGRAM_BOT_TOKEN", Settings.SStr "123:abc")]%string)
           "123:abc").
  - reflexivity.
  - reflexivity.
  - reflexivity.
  - discriminate.
  - right. left. reflexivity.
  - reflexivity.
Defined.
